(** * Seismic damage sampling and serviceability aggregation

    A shallow embedding of [modules/hydraulic_simulator.py]
    ([HydraulicSimulator.apply_damage_states] and
    [HydraulicSimulator.run_hydraulic_simulation]) together with the
    properties its specification states about it.

    Conventions of the embedding.
    - Python floats are idealised as real numbers ([R]); the integer
      parts of the fragility formulas are also given over [Z] so that
      they can be evaluated.
    - numpy's ambient generator is an explicit state threaded through
      the draws, in the order the source performs them.
    - wntr (network model, morphing, solver, metrics) is an external
      collaborator: it appears as an interface, [Wntr], whose
      operations are the calls the source makes; what its documentation
      says splitting a pipe and adding a leak leave alone is stated
      apart, as [WntrFrame], and assumed only where a statement says
      so.
    - A Python exception is the [Raised] outcome of a computation. *)

From Stdlib Require Import Reals Lra Lia ZArith List String Bool Sorted Permutation.
Import ListNotations.
Open Scope R_scope.

(** ** Python values and exceptions *)

Inductive exn : Type :=
| ValueError                 (* numpy: lam < 0; pandas: unequal lengths *)
| ExternalError (what : string).  (* raised inside wntr *)

Inductive outcome (A : Type) : Type :=
| Returned (a : A)
| Raised (e : exn).
Arguments Returned {A} a.
Arguments Raised {A} e.

(** A computation that reads and advances the generator state [G] and
    may raise. *)
Definition M (G A : Type) : Type := G -> outcome A * G.

Definition ret {G A} (a : A) : M G A := fun g => (Returned a, g).

Definition raise {G A} (e : exn) : M G A := fun g => (Raised e, g).

Definition bind {G A B} (m : M G A) (k : A -> M G B) : M G B :=
  fun g =>
    match m g with
    | (Returned a, g') => k a g'
    | (Raised e, g') => (Raised e, g')
    end.

Definition lift {G A} (o : outcome A) : M G A := fun g => (o, g).

Notation "x <- m ;; k" := (bind m (fun x => k))
  (at level 61, m at next level, right associativity).

(** [int(x)] on a float: truncation toward zero. *)
Definition py_int (x : R) : Z :=
  if Rlt_dec x 0 then (- Int_part (- x))%Z else Int_part x.

(** The builtin [min(a, b)]: the first argument unless the second is
    strictly smaller. *)
Definition py_min (a b : R) : R := if Rlt_dec b a then b else a.

(** [Series.mean()]. The series of the metrics, and those of a solver
    that converged, have one entry per reporting step. The mean of a
    series without a step is NaN in pandas, which the real numbers do
    not have; no statement relies on what this definition gives
    there. *)
Definition mean (xs : list R) : R :=
  fold_right Rplus 0 xs / INR (List.length xs).

(** ** Dictionaries

    A Python [dict] keeps its keys in first-insertion order and
    overwrites the value of a key that is already present. *)

Definition dict (V : Type) : Type := list (string * V).

Fixpoint dict_get {V} (d : dict V) (k : string) : option V :=
  match d with
  | [] => None
  | (k', v) :: t => if String.eqb k' k then Some v else dict_get t k
  end.

Fixpoint dict_set {V} (d : dict V) (k : string) (v : V) : dict V :=
  match d with
  | [] => [(k, v)]
  | (k', v') :: t =>
      if String.eqb k' k then (k', v) :: t else (k', v') :: dict_set t k v
  end.

(** [x in names] for a list of names. *)
Fixpoint name_in (x : string) (names : list string) : bool :=
  match names with
  | [] => false
  | y :: t => String.eqb y x || name_in x t
  end.

(** ** Data model *)

(** One row of [scenarios_df]. *)
Record row : Type := {
  scenario_index : Z;
  site_id : string;
  PGA : R;
  PGV : R
}.

(** The arguments of [run_hydraulic_simulation]. *)
Record config : Type := {
  duration : Z;
  leak_start_time : Z;
  leak_end_time : Z;
  minimum_pressure : R;
  required_pressure : R
}.

(** One row of the returned [serviceability_df]. *)
Record ServiceabilityRecord : Type := {
  rec_site_id : string;
  rec_scenario_index : Z;
  rec_serviceability : R
}.

Record HydraulicSimulator : Type := {
  epanet_file_path : string;
  scenarios_df : list row
}.

(** ** Collaborators *)

(** [np.random]: the two draws the source makes. [poisson_draw] is
    only consulted at a rate that is not negative; [uniform_draw] is
    [np.random.uniform()], a sample of the half-open unit interval. *)
Class NpRandom (G : Type) : Type := {
  poisson_draw : R -> G -> nat * G;
  uniform_draw : G -> R * G;
  uniform_draw_range : forall g, 0 <= fst (uniform_draw g) < 1
}.

(** [wntr], at the calls the source makes.
    - [WaterNetworkModel path] loads the EPANET file;
    - [set_options] is the four assignments to [wn.options]
      (demand model PDD, duration, minimum and required pressure);
    - [link_length] and [link_diameter] read [wn.get_link(name)]; wntr
      holds them in SI units, a length in metres, whatever the units
      of the EPANET file;
    - [split_pipe wn pipe new_pipe new_junction] is
      [wntr.morph.split_pipe], which raises when a name is taken;
    - [add_leak wn node area t0 t1] is
      [wn.get_node(node).add_leak(wn, area, t0, t1)];
    - [run_sim] is [WNTRSimulator(wn).run_sim()]: called as it is here,
      with its defaults, it does not raise when the simulation does not
      converge; it warns, which the module silences, and returns the
      results it has, partial or empty. It may raise for other reasons;
    - [converged res] is the status wntr leaves in the results, which
      the source never reads;
    - [node_demand res node] is [res.node['demand'].loc[:, node]];
    - [expected_demand wn node] is
      [wntr.metrics.expected_demand(wn)[node]]. *)
Class Wntr (WN Results : Type) : Type := {
  WaterNetworkModel : string -> WN;
  set_options : WN -> config -> WN;
  pipe_name_list : WN -> list string;
  node_name_list : WN -> list string;
  junction_name_list : WN -> list string;
  link_length : WN -> string -> R;
  link_diameter : WN -> string -> R;
  split_pipe : WN -> string -> string -> string -> outcome WN;
  add_leak : WN -> string -> R -> Z -> Z -> WN;
  run_sim : WN -> outcome Results;
  converged : Results -> bool;
  node_demand : Results -> string -> list R;
  expected_demand : WN -> string -> list R
}.

(** What wntr leaves alone. [split_pipe] needs a junction name that is
    free, adds the junction, with no demand, to the nodes and the
    junctions, and touches no other node; [add_leak] changes neither
    the names nor any demand: [wntr.metrics.expected_demand] reads the
    base demands, the patterns and the time options only. *)
Class WntrFrame {WN Results : Type} (wntr : Wntr WN Results) : Prop := {
  split_pipe_name_free :
    forall wn p np nj wn',
      split_pipe wn p np nj = Returned wn' -> ~ In nj (node_name_list wn);
  split_pipe_nodes :
    forall wn p np nj wn' node,
      split_pipe wn p np nj = Returned wn' ->
      (In node (node_name_list wn') <-> In node (node_name_list wn) \/ node = nj);
  split_pipe_junctions :
    forall wn p np nj wn' node,
      split_pipe wn p np nj = Returned wn' ->
      (In node (junction_name_list wn')
       <-> In node (junction_name_list wn) \/ node = nj);
  split_pipe_expected_demand :
    forall wn p np nj wn' node,
      split_pipe wn p np nj = Returned wn' -> node <> nj ->
      expected_demand wn' node = expected_demand wn node;
  split_pipe_no_demand :
    forall wn p np nj wn',
      split_pipe wn p np nj = Returned wn' ->
      mean (expected_demand wn' nj) = 0;
  add_leak_nodes :
    forall wn n a t0 t1,
      node_name_list (add_leak wn n a t0 t1) = node_name_list wn;
  add_leak_junctions :
    forall wn n a t0 t1,
      junction_name_list (add_leak wn n a t0 t1) = junction_name_list wn;
  add_leak_expected_demand :
    forall wn n a t0 t1 node,
      expected_demand (add_leak wn n a t0 t1) node = expected_demand wn node
}.

(** ** The engine *)

Section Engine.

Context {G : Type} `{NpRandom G}.
Context {WN Results : Type} `{Wntr WN Results}.

(** [np.random.poisson(lam)]: raises [ValueError] when [lam < 0]. *)
Definition np_random_poisson (lam : R) : M G nat :=
  fun g =>
    if Rlt_dec lam 0 then (Raised ValueError, g)
    else let (n, g') := poisson_draw lam g in (Returned n, g').

(** [np.random.uniform()]. *)
Definition np_random_uniform : M G R :=
  fun g => let (u, g') := uniform_draw g in (Returned u, g').

(** *** [apply_damage_states]: the locals of the loop body *)

Definition repair_rate (r : row) : R := 0.000241 * PGV r / 100.

Definition link_length_m (wn : WN) (pipe_name : string) : R :=
  link_length wn pipe_name * 0.3048.

Definition leaks (num_damages : nat) : Z := py_int (0.85 * INR num_damages).

Definition breaks (num_damages : nat) : Z := py_int (0.15 * INR num_damages).

Definition area (wn : WN) (pipe_name : string) : R :=
  PI * (link_diameter wn pipe_name / 2) ^ 2.

Definition orifice_area (wn : WN) (pipe_name : string) (num_damages : nat) : R :=
  py_min ((0.03 * IZR (leaks num_damages) + 0.2 * IZR (breaks num_damages))
          * area wn pipe_name)
         (area wn pipe_name).

Definition pf (wn : WN) (r : row) : R :=
  1 - exp (- repair_rate r * link_length_m wn (site_id r)).

(** One iteration of the loop over [scenario_group.iterrows()]. *)
Definition damage_row (wn : WN) (pipelines_orifice_areas : dict R) (r : row)
  : M G (dict R) :=
  if name_in (site_id r) (pipe_name_list wn) then
    num_damages <-
      np_random_poisson (repair_rate r * link_length_m wn (site_id r)) ;;
    u <- np_random_uniform ;;
    if Rlt_dec u (pf wn r)
    then ret (dict_set pipelines_orifice_areas (site_id r)
                (orifice_area wn (site_id r) num_damages))
    else ret pipelines_orifice_areas
  else ret pipelines_orifice_areas.

Fixpoint damage_rows (wn : WN) (pipelines_orifice_areas : dict R)
  (rows : list row) : M G (dict R) :=
  match rows with
  | [] => ret pipelines_orifice_areas
  | r :: rest =>
      d <- damage_row wn pipelines_orifice_areas r ;;
      damage_rows wn d rest
  end.

Definition apply_damage_states (wn : WN) (scenario_group : list row)
  : M G (dict R) :=
  damage_rows wn [] scenario_group.

(** *** [run_hydraulic_simulation] *)

(** The loop over [pipelines_orifice_areas.items()]: split the pipe and
    put a leak on the new junction. [str(pipe)] is the name of the link,
    that is [pipe_id]; the new pipe is [pipe_id ++ "_A"] and the new
    junction ["Leak_" ++ pipe_id]. *)
Fixpoint apply_orifice_areas (cfg : config) (wn : WN) (items : dict R)
  : outcome WN :=
  match items with
  | [] => Returned wn
  | (pipe_id, a) :: rest =>
      match split_pipe wn pipe_id (pipe_id ++ "_A")%string
              ("Leak_" ++ pipe_id)%string with
      | Raised e => Raised e
      | Returned wn1 =>
          apply_orifice_areas cfg
            (add_leak wn1 ("Leak_" ++ pipe_id)%string a
               (leak_start_time cfg) (leak_end_time cfg))
            rest
      end
  end.

(** One iteration of the loop over [wn.node_name_list]. *)
Definition serviceability_node (wn : WN) (results : Results)
  (serviceability : dict R) (node_name : string) : dict R :=
  if name_in node_name (junction_name_list wn) then
    let satisfied_demand := mean (node_demand results node_name) in
    let required_demand := mean (expected_demand wn node_name) in
    if Req_dec_T required_demand 0 then serviceability
    else dict_set serviceability node_name (satisfied_demand / required_demand)
  else serviceability.

Definition calculate_serviceability (wn : WN) (results : Results) : dict R :=
  fold_left (serviceability_node wn results) (node_name_list wn) [].

(** [serviceability_dict[node].append(value)], creating the list on the
    first value of a node. *)
Definition accumulate_node (serviceability_dict : dict (list R))
  (item : string * R) : dict (list R) :=
  let (node, value) := item in
  match dict_get serviceability_dict node with
  | None => dict_set serviceability_dict node [value]
  | Some values => dict_set serviceability_dict node (values ++ [value])
  end.

Definition accumulate (serviceability_dict : dict (list R))
  (serviceability : dict R) : dict (list R) :=
  fold_left accumulate_node serviceability serviceability_dict.

(** The network a scenario starts from: a fresh load of the EPANET file
    with the four options set. *)
Definition fresh_network (path : string) (cfg : config) : WN :=
  set_options (WaterNetworkModel path) cfg.

(** The body of the loop over the groups, up to the per-scenario
    [serviceability] dictionary. *)
Definition run_scenario (path : string) (cfg : config)
  (scenario_group : list row) : M G (dict R) :=
  let wn := fresh_network path cfg in
  pipelines_orifice_areas <- apply_damage_states wn scenario_group ;;
  wn' <- lift (apply_orifice_areas cfg wn pipelines_orifice_areas) ;;
  results <- lift (run_sim wn') ;;
  ret (calculate_serviceability wn' results).

Fixpoint scenario_loop (path : string) (cfg : config)
  (serviceability_dict : dict (list R)) (groups : list (Z * list row))
  : M G (dict (list R)) :=
  match groups with
  | [] => ret serviceability_dict
  | (_, scenario_group) :: rest =>
      serviceability <- run_scenario path cfg scenario_group ;;
      scenario_loop path cfg (accumulate serviceability_dict serviceability) rest
  end.

End Engine.

(** *** [groupby('scenario_index')]: groups in ascending key order, each
    with its rows in their original order. *)

Fixpoint insert_key (k : Z) (ks : list Z) : list Z :=
  match ks with
  | [] => [k]
  | h :: t =>
      if (k <? h)%Z then k :: ks
      else if (k =? h)%Z then ks
      else h :: insert_key k t
  end.

Definition group_keys (df : list row) : list Z :=
  fold_right (fun r ks => insert_key (scenario_index r) ks) [] df.

Definition groupby (df : list row) : list (Z * list row) :=
  map (fun k => (k, filter (fun r => (scenario_index r =? k)%Z) df))
      (group_keys df).

(** *** The reshape

    [pd.DataFrame.from_dict(d)] makes one column per key and needs all
    value lists to have one length, which becomes the number of rows
    (labelled 0, 1, ...); it raises [ValueError] otherwise. After
    [transpose().reset_index().rename(...)] there is one row per node
    and one column per position. [melt] then lists, column after
    column, one record per node, the column label going to
    [scenario_index]. *)

Definition columns_length (d : dict (list R)) : nat :=
  match d with
  | [] => O
  | (_, values) :: _ => List.length values
  end.

Definition same_lengths (d : dict (list R)) : bool :=
  forallb (fun kv => Nat.eqb (List.length (snd kv)) (columns_length d)) d.

Definition DataFrame_from_dict (d : dict (list R)) : outcome (dict (list R)) :=
  if same_lengths d then Returned d else Raised ValueError.

Definition melt (wide : dict (list R)) : list ServiceabilityRecord :=
  flat_map
    (fun j =>
       map (fun kv =>
              {| rec_site_id := fst kv;
                 rec_scenario_index := Z.of_nat j;
                 rec_serviceability := nth j (snd kv) 0 |})
           wide)
    (seq 0 (columns_length wide)).

Definition reshape (serviceability_dict : dict (list R))
  : outcome (list ServiceabilityRecord) :=
  match DataFrame_from_dict serviceability_dict with
  | Returned wide => Returned (melt wide)
  | Raised e => Raised e
  end.

Section Batch.

Context {G : Type} `{NpRandom G}.
Context {WN Results : Type} `{Wntr WN Results}.

Definition run_hydraulic_simulation (self : HydraulicSimulator) (cfg : config)
  : M G (list ServiceabilityRecord) :=
  serviceability_dict <-
    scenario_loop (epanet_file_path self) cfg [] (groupby (scenarios_df self)) ;;
  lift (reshape serviceability_dict).

End Batch.

(** ** Predicates of the statements *)

Section Predicates.

Context {WN Results : Type} `{Wntr WN Results}.

(** Every entry of a damage plan is between zero and the bore of its
    pipe. *)
Definition plan_within_bore (wn : WN) (plan : dict R) : Prop :=
  Forall (fun kv => 0 <= snd kv <= PI * (link_diameter wn (fst kv) / 2) ^ 2)
         plan.

(** The row names a pipe of the network. *)
Definition names_pipe (wn : WN) (r : row) : bool :=
  name_in (site_id r) (pipe_name_list wn).

(** What the reducer records for a node: the ratio of the means, for
    a junction whose mean expected demand is not zero. *)
Definition ratio_of (wn : WN) (results : Results) (node : string) (v : R)
  : Prop :=
  name_in node (junction_name_list wn) = true
  /\ mean (expected_demand wn node) <> 0
  /\ v = mean (node_demand results node) / mean (expected_demand wn node).

(** A node the reducer records on [wn]: a junction of the node list
    whose mean expected demand is not zero. *)
Definition eligible (wn : WN) (node : string) : Prop :=
  In node (node_name_list wn)
  /\ name_in node (junction_name_list wn) = true
  /\ mean (expected_demand wn node) <> 0.

(** The length of a pipe in feet, wntr holding it in metres, and the
    length in metres and the failure probability as the specification
    words them: [length_m = length_ft * 0.3048] and
    [pf = 1 - exp (- repair_rate * length_m)]. *)
Definition length_ft (wn : WN) (pipe_name : string) : R :=
  link_length wn pipe_name / 0.3048.

Definition length_m_of_spec (wn : WN) (pipe_name : string) : R :=
  length_ft wn pipe_name * 0.3048.

Definition pf_of_spec (wn : WN) (r : row) : R :=
  1 - exp (- (0.000241 * PGV r / 100 * length_m_of_spec wn (site_id r))).

End Predicates.

(** The damage planner as the specification words it: [damage_row] with
    [length_m_of_spec] in the place of [link_length_m], in the rate of
    the Poisson draw and in the failure probability. It is there to be
    compared with [apply_damage_states]. *)

Section PlannerOfSpec.

Context {G : Type} `{NpRandom G}.
Context {WN Results : Type} `{Wntr WN Results}.

Definition damage_row_of_spec (wn : WN) (pipelines_orifice_areas : dict R)
  (r : row) : M G (dict R) :=
  if name_in (site_id r) (pipe_name_list wn) then
    num_damages <-
      np_random_poisson (repair_rate r * length_m_of_spec wn (site_id r)) ;;
    u <- np_random_uniform ;;
    if Rlt_dec u (pf_of_spec wn r)
    then ret (dict_set pipelines_orifice_areas (site_id r)
                (orifice_area wn (site_id r) num_damages))
    else ret pipelines_orifice_areas
  else ret pipelines_orifice_areas.

Fixpoint damage_rows_of_spec (wn : WN) (pipelines_orifice_areas : dict R)
  (rows : list row) : M G (dict R) :=
  match rows with
  | [] => ret pipelines_orifice_areas
  | r :: rest =>
      d <- damage_row_of_spec wn pipelines_orifice_areas r ;;
      damage_rows_of_spec wn d rest
  end.

Definition apply_damage_states_of_spec (wn : WN) (scenario_group : list row)
  : M G (dict R) :=
  damage_rows_of_spec wn [] scenario_group.

End PlannerOfSpec.

(** Two nodes of the accumulated mapping have value lists of different
    lengths. *)
Definition lengths_differ (d : dict (list R)) : Prop :=
  exists kv kv',
    In kv d /\ In kv' d /\ List.length (snd kv) <> List.length (snd kv').

(** ** The draws of a group *)

Section Draws.

Context {G : Type} `{NpRandom G}.
Context {WN Results : Type} `{Wntr WN Results}.

(** The generator after a row: one Poisson and one uniform draw when
    the row names a pipe, none otherwise. *)
Definition draws_of_row (wn : WN) (g : G) (r : row) : G :=
  if names_pipe wn r
  then snd (uniform_draw
              (snd (poisson_draw
                      (repair_rate r * link_length_m wn (site_id r)) g)))
  else g.

Definition draws_of_rows (wn : WN) (rows : list row) (g : G) : G :=
  fold_left (draws_of_row wn) rows g.

(** The generator after the groups, one after the other. *)
Definition draws_of_groups (wn : WN) (groups : list (Z * list row)) (g : G)
  : G :=
  fold_left (fun g kr => draws_of_rows wn (snd kr) g) groups g.

End Draws.

(** The list of a node after one more value. *)
Definition appended (old : option (list R)) (value : R) : list R :=
  match old with
  | Some values => values ++ [value]
  | None => [value]
  end.

(** The accumulated mapping after the dictionaries of several scenarios,
    and the number of them that record a node. *)
Definition accumulate_all (servs : list (dict R)) : dict (list R) :=
  fold_left accumulate servs [].

Definition times_recorded (servs : list (dict R)) (node : string) : nat :=
  List.length (filter (fun s => name_in node (map fst s)) servs).

(** The values the mapping holds for a node, none when it is no key. *)
Definition values_of (d : dict (list R)) (node : string) : list R :=
  match dict_get d node with
  | Some values => values
  | None => []
  end.

(** ** [population_calculator.py]: the population impacted

    [calculate_population_served] reads two shapefiles and joins them
    spatially; its result, one [(site_id, population_served)] row per
    water node with missing populations filled with 0, is an argument
    here. A missing float ([NaN]) is [None]. *)

(** One row of the returned [population_df]. *)
Record PopulationRecord : Type := {
  pop_scenario_index : Z;
  pop_site_id : string;
  population_served : option R;
  population_impacted : option R
}.

(** [pd.merge(left, right, on='site_id', how='left')]: the rows of
    [left] in their order, each with every row of [right] of the same
    [site_id], in the order of [right], or with a missing value when
    there is none. *)
Definition merge_left_on_site_id (left : list ServiceabilityRecord)
  (right : list (string * R)) : list (ServiceabilityRecord * option R) :=
  flat_map
    (fun l =>
       match filter (fun kv => String.eqb (fst kv) (rec_site_id l)) right with
       | [] => [(l, None)]
       | matches => map (fun kv => (l, Some (snd kv))) matches
       end)
    left.

(** [calculate_population_impacted]. The first merge of the source,
    with [scenarios_df], is overwritten by the second before it is
    used. *)
Definition calculate_population_impacted
  (serviceability_df : list ServiceabilityRecord)
  (population_served_df : list (string * R)) : list PopulationRecord :=
  map (fun lp =>
         {| pop_scenario_index := rec_scenario_index (fst lp);
            pop_site_id := rec_site_id (fst lp);
            population_served := snd lp;
            population_impacted :=
              match snd lp with
              | Some served => Some ((1 - rec_serviceability (fst lp)) * served)
              | None => None
              end |})
      (merge_left_on_site_id serviceability_df population_served_df).

(** ** Where a value of the table comes from *)

Section Provenance.

Context {G : Type} `{NpRandom G}.
Context {WN Results : Type} `{Wntr WN Results}.

(** [v] is the ratio recorded for [node] by a scenario of [groups],
    planned from some state of the generator. *)
Definition recorded_by (path : string) (cfg : config)
  (groups : list (Z * list row)) (node : string) (v : R) : Prop :=
  exists k rows g1 g2 plan wn' results,
    In (k, rows) groups
    /\ apply_damage_states (fresh_network path cfg) rows g1
       = (Returned plan, g2)
    /\ apply_orifice_areas cfg (fresh_network path cfg) plan = Returned wn'
    /\ run_sim wn' = Returned results
    /\ ratio_of wn' results node v.

End Provenance.

(** ** A small concrete world

    A generator that reads its draws from a tape and a one-pipe network
    whose solver and demand metric are supplied as black boxes. They
    are used to evaluate the engine on concrete inputs. *)

Module Toy.

(** The tape holds the coming draws: a Poisson draw returns the head, a
    uniform draw returns 0 when the head is 0 and 1/2 otherwise. *)
Definition tape : Type := list nat.

Definition tape_uniform (g : tape) : R :=
  if Nat.eqb (hd O g) O then 0 else 1 / 2.

Definition tape_random : NpRandom tape := {|
  poisson_draw := fun _ g => (hd O g, tl g);
  uniform_draw := fun g => (tape_uniform g, tl g);
  uniform_draw_range := fun g =>
    ltac:(unfold tape_uniform; cbn; destruct (Nat.eqb (hd O g) O); lra)
|}.

Record net : Type := {
  net_pipes : dict (R * R);          (* name, (length, diameter) *)
  net_junctions : dict R;            (* name, base demand *)
  net_reservoirs : list string;
  net_leaks : dict R;                (* node, leak area *)
  net_options : option config
}.

Definition net_pipe (wn : net) (name : string) : R * R :=
  match dict_get (net_pipes wn) name with
  | Some p => p
  | None => (0, 0)
  end.

Definition net_split (wn : net) (pipe new_pipe new_junction : string)
  : outcome net :=
  if name_in new_pipe (map fst (net_pipes wn))
     || name_in new_junction (map fst (net_junctions wn) ++ net_reservoirs wn)
  then Raised (ExternalError "name already in use")
  else
    let (len, diam) := net_pipe wn pipe in
    Returned
      {| net_pipes :=
           dict_set (dict_set (net_pipes wn) pipe (len / 2, diam))
             new_pipe (len / 2, diam);
         net_junctions := dict_set (net_junctions wn) new_junction 0;
         net_reservoirs := net_reservoirs wn;
         net_leaks := net_leaks wn;
         net_options := net_options wn |}.

Definition net_add_leak (wn : net) (node : string) (a : R) (t0 t1 : Z) : net :=
  {| net_pipes := net_pipes wn;
     net_junctions := net_junctions wn;
     net_reservoirs := net_reservoirs wn;
     net_leaks := dict_set (net_leaks wn) node a;
     net_options := net_options wn |}.

Definition net_set_options (wn : net) (cfg : config) : net :=
  {| net_pipes := net_pipes wn;
     net_junctions := net_junctions wn;
     net_reservoirs := net_reservoirs wn;
     net_leaks := net_leaks wn;
     net_options := Some cfg |}.

(** The network every path loads: reservoir [R1], pipe [P1] of length
    1000 (metres, as wntr holds it) and diameter 0.5, junction [J1] of
    base demand 1. *)
Definition net_file : net :=
  {| net_pipes := [("P1"%string, (1000, 0.5))];
     net_junctions := [("J1"%string, 1)];
     net_reservoirs := ["R1"%string];
     net_leaks := [];
     net_options := None |}.

(** Results without a single time step are those of a simulation that
    did not converge. *)
Definition has_steps (res : dict (list R)) : bool :=
  forallb (fun kv => negb (Nat.eqb (List.length (snd kv)) 0)) res.

(** A wntr that loads the network [file], whose solver and
    expected-demand metric are the given functions. *)
Definition wntr_on (file : net) (solve : net -> outcome (dict (list R)))
  (metric : net -> string -> list R) : Wntr net (dict (list R)) := {|
  WaterNetworkModel := fun _ => file;
  set_options := net_set_options;
  pipe_name_list := fun wn => map fst (net_pipes wn);
  node_name_list := fun wn => map fst (net_junctions wn) ++ net_reservoirs wn;
  junction_name_list := fun wn => map fst (net_junctions wn);
  link_length := fun wn name => fst (net_pipe wn name);
  link_diameter := fun wn name => snd (net_pipe wn name);
  split_pipe := net_split;
  add_leak := net_add_leak;
  run_sim := solve;
  converged := has_steps;
  node_demand := fun res node =>
    match dict_get res node with Some s => s | None => [] end;
  expected_demand := metric
|}.

(** The same over the one-pipe network [net_file]. *)
Definition wntr_with (solve : net -> outcome (dict (list R)))
  (metric : net -> string -> list R) : Wntr net (dict (list R)) :=
  wntr_on net_file solve metric.

(** The metric of a junction: its base demand at the single step. *)
Definition metric_base (wn : net) (node : string) : list R :=
  match dict_get (net_junctions wn) node with
  | Some d => [d]
  | None => []
  end.

(** A solver that delivers the fraction [f] of every base demand. *)
Definition solve_fraction (f : R) (wn : net) : outcome (dict (list R)) :=
  Returned (map (fun jd => (fst jd, [f * snd jd])) (net_junctions wn)).

(** A solver that does not converge on a network with a leak: it
    returns then, without raising, results that hold no time step. *)
Definition solve_stalled (wn : net) : outcome (dict (list R)) :=
  match net_leaks wn with
  | [] => solve_fraction 1 wn
  | _ :: _ => Returned (map (fun jd => (fst jd, [])) (net_junctions wn))
  end.

Definition wntr_plain : Wntr net (dict (list R)) :=
  wntr_with (solve_fraction 1) metric_base.

Definition cfg0 : config :=
  {| duration := 24; leak_start_time := 0; leak_end_time := 24;
     minimum_pressure := 0; required_pressure := 20 |}.

Definition row_of (k : Z) (site : string) (pgv : R) : row :=
  {| scenario_index := k; site_id := site; PGA := 0; PGV := pgv |}.

(** *** Inputs of the examples *)

(** Pressure-driven analysis of the undamaged network delivering half
    of the demand. *)
Definition wntr_half : Wntr net (dict (list R)) :=
  wntr_with (solve_fraction (1 / 2)) metric_base.

Module Length.

(** A main of 10000 ft and diameter 0.5 between a reservoir and a
    junction, in an EPANET file in US units: wntr holds its length in
    metres, 3048. *)
Definition net_main : net :=
  {| net_pipes := [("P1"%string, (3048, 0.5))];
     net_junctions := [("J1"%string, 1)];
     net_reservoirs := ["R1"%string];
     net_leaks := [];
     net_options := None |}.

Definition wntr_main : Wntr net (dict (list R)) :=
  wntr_on net_main (solve_fraction 1) metric_base.

Definition r0 : row := row_of 0 "P1" 150.

(** Three damages drawn, then a uniform sample of 1/2. *)
Definition g0 : tape := [3%nat; 1%nat].

End Length.

Module ZeroRate.

Definition rows : list row := [row_of 0 "P1" 0; row_of 0 "J1" 0].

Definition simulator : HydraulicSimulator :=
  {| epanet_file_path := "net.inp"; scenarios_df := rows |}.

Definition g0 : tape := [2%nat; 0%nat].

End ZeroRate.

Module ZeroArea.

(** One damage drawn, then a uniform sample of 0. *)
Definition g0 : tape := [1%nat; 0%nat].

Definition r0 : row := row_of 0 "P1" 100.

End ZeroArea.

Module UnknownSite.

(** A scenario whose only row names neither a pipe nor a node. *)
Definition rows : list row := [row_of 0 "NOPE" 100].

Definition simulator : HydraulicSimulator :=
  {| epanet_file_path := "net.inp"; scenarios_df := rows |}.

Definition g0 : tape := [4%nat; 0%nat].

End UnknownSite.

(** The network after pipe [P1] failed with an orifice area of 0. *)
Definition net_leaky : net :=
  {| net_pipes := [("P1"%string, (1000 / 2, 0.5));
                   ("P1_A"%string, (1000 / 2, 0.5))];
     net_junctions := [("J1"%string, 1); ("Leak_P1"%string, 0)];
     net_reservoirs := ["R1"%string];
     net_leaks := [("Leak_P1"%string, 0)];
     net_options := Some cfg0 |}.

Module Ratio.

(** A solver that delivers twice the demand. *)
Definition wntr_double : Wntr net (dict (list R)) :=
  wntr_with (solve_fraction 2) metric_base.

Definition rows : list row := [row_of 0 "P1" 100].

Definition simulator : HydraulicSimulator :=
  {| epanet_file_path := "net.inp"; scenarios_df := rows |}.

(** One damage drawn, then a uniform sample of 0. *)
Definition g0 : tape := [1%nat; 0%nat].

End Ratio.

Module Divergence.

(** A solver that does not converge on the damaged network. *)
Definition wntr_stalled : Wntr net (dict (list R)) :=
  wntr_with solve_stalled metric_base.

(** Scenario 0 without shaking, scenario 1 with a failing pipe. *)
Definition rows0 : list row := [row_of 0 "P1" 0].
Definition rows1 : list row := [row_of 1 "P1" 100].

Definition simulator : HydraulicSimulator :=
  {| epanet_file_path := "net.inp"; scenarios_df := rows0 ++ rows1 |}.

Definition g0 : tape := [0%nat; 0%nat; 1%nat; 0%nat].

(** What the solver returns for the leaking network: no time step. *)
Definition stalled_results : dict (list R) :=
  [("J1"%string, []); ("Leak_P1"%string, [])].

End Divergence.

Module Order.

(** Two scenarios on the same pipe. *)
Definition rowsA : list row := [row_of 0 "P1" 100].
Definition rowsB : list row := [row_of 1 "P1" 200].

(** The generator is about to draw 1, 0, 4, 0. *)
Definition g0 : tape := [1%nat; 0%nat; 4%nat; 0%nat].

(** The batch of the two scenarios, and the snapshot of the second
    when it runs after the first: a leak of 9 % of the bore. *)
Definition simulator : HydraulicSimulator :=
  {| epanet_file_path := "net.inp"; scenarios_df := rowsA ++ rowsB |}.

Definition net_leaky4 : net :=
  {| net_pipes := [("P1"%string, (1000 / 2, 0.5));
                   ("P1_A"%string, (1000 / 2, 0.5))];
     net_junctions := [("J1"%string, 1); ("Leak_P1"%string, 0)];
     net_reservoirs := ["R1"%string];
     net_leaks := [("Leak_P1"%string, 0.09 * (PI * (0.5 / 2) ^ 2))];
     net_options := Some cfg0 |}.

End Order.

Module Eligibility.

(** A network of one pipe with two junctions that have a demand and one
    that has none. *)
Definition net_two : net :=
  {| net_pipes := [("P1"%string, (1000, 0.5))];
     net_junctions := [("J1"%string, 1); ("J2"%string, 3); ("J0"%string, 0)];
     net_reservoirs := ["R1"%string];
     net_leaks := [];
     net_options := None |}.

Definition wntr_two : Wntr net (dict (list R)) :=
  wntr_on net_two (solve_fraction 1) metric_base.

(** Scenario 0 without shaking, scenario 1 with a failing pipe. *)
Definition rows0 : list row := [row_of 0 "P1" 0].
Definition rows1 : list row := [row_of 1 "P1" 100].

Definition simulator : HydraulicSimulator :=
  {| epanet_file_path := "two.inp"; scenarios_df := rows0 ++ rows1 |}.

Definition g0 : tape := [0%nat; 0%nat; 1%nat; 0%nat].

(** The snapshot of scenario 1: [P1] split, a leak of area 0 on the new
    junction. *)
Definition net_two_leaky : net :=
  {| net_pipes := [("P1"%string, (1000 / 2, 0.5));
                   ("P1_A"%string, (1000 / 2, 0.5))];
     net_junctions := [("J1"%string, 1); ("J2"%string, 3); ("J0"%string, 0);
                       ("Leak_P1"%string, 0)];
     net_reservoirs := ["R1"%string];
     net_leaks := [("Leak_P1"%string, 0)];
     net_options := Some cfg0 |}.

(** The table of the two scenarios. *)
Definition table : list ServiceabilityRecord :=
  [ {| rec_site_id := "J1"; rec_scenario_index := 0; rec_serviceability := 1 |};
    {| rec_site_id := "J2"; rec_scenario_index := 0; rec_serviceability := 1 |};
    {| rec_site_id := "J1"; rec_scenario_index := 1; rec_serviceability := 1 |};
    {| rec_site_id := "J2"; rec_scenario_index := 1; rec_serviceability := 1 |} ].

(** Dictionaries of two scenarios of which only the first records
    [J2]: what the engine never hands to the reshape. *)
Definition servs_unequal : list (dict R) :=
  [ [("J1"%string, 1); ("J2"%string, 1)]; [("J1"%string, 1 / 2)] ].

End Eligibility.

Module Labels.

(** A single scenario, whose key is 1. *)
Definition rows : list row := [row_of 1 "J1" 0].

Definition simulator : HydraulicSimulator :=
  {| epanet_file_path := "net.inp"; scenarios_df := rows |}.

Definition g0 : tape := [].

End Labels.

End Toy.

(** *** Inputs of the further examples *)

Module Inputs.

(** A network in which the name of the pipe that a split of [P1] would
    add is already taken. *)
Definition net_clash : Toy.net :=
  {| Toy.net_pipes := [("P1"%string, (1000, 0.5));
                       ("P1_A"%string, (500, 0.5))];
     Toy.net_junctions := [("J1"%string, 1)];
     Toy.net_reservoirs := ["R1"%string];
     Toy.net_leaks := [];
     Toy.net_options := None |}.

Definition wntr_clash : Wntr Toy.net (dict (list R)) := {|
  WaterNetworkModel := fun _ => net_clash;
  set_options := Toy.net_set_options;
  pipe_name_list := fun wn => map fst (Toy.net_pipes wn);
  node_name_list :=
    fun wn => map fst (Toy.net_junctions wn) ++ Toy.net_reservoirs wn;
  junction_name_list := fun wn => map fst (Toy.net_junctions wn);
  link_length := fun wn name => fst (Toy.net_pipe wn name);
  link_diameter := fun wn name => snd (Toy.net_pipe wn name);
  split_pipe := Toy.net_split;
  add_leak := Toy.net_add_leak;
  run_sim := Toy.solve_fraction 1;
  converged := Toy.has_steps;
  node_demand := fun res node =>
    match dict_get res node with Some s => s | None => [] end;
  expected_demand := Toy.metric_base
|}.

(** A pipe row under shaking, and one under a negative velocity. *)
Definition shaken : row := Toy.row_of 0 "P1" 100.
Definition negative : row := Toy.row_of 0 "P1" (-1).

(** One damage drawn, then a uniform sample of 0. *)
Definition g0 : Toy.tape := [1%nat; 0%nat].

(** A serviceability table of one record, above 1, and a population
    table. *)
Definition served_above_one : ServiceabilityRecord :=
  {| rec_site_id := "J1"; rec_scenario_index := 0; rec_serviceability := 2 |}.

Definition population_table : list (string * R) :=
  [("J1"%string, 100); ("J2"%string, 40)].

(** The record returned for the single scenario of [Toy.Labels]. *)
Definition the_record : ServiceabilityRecord :=
  {| rec_site_id := "J1"; rec_scenario_index := 0; rec_serviceability := 1 |}.

End Inputs.

(** * Properties *)

(** ** Arithmetic of the loop body *)

Lemma py_int_nonneg (x : R) : 0 <= x -> py_int x = Int_part x.
Proof.
  intros Hx. unfold py_int.
  destruct (Rlt_dec x 0) as [Hneg | _]; [lra | reflexivity].
Qed.

Lemma py_min_Rmin (a b : R) : py_min a b = Rmin a b.
Proof.
  unfold py_min, Rmin.
  destruct (Rlt_dec b a) as [Hlt | Hge]; destruct (Rle_dec a b) as [Hle | Hgt];
    try reflexivity; lra.
Qed.

(** [floor(p/100 * n)] is the integer quotient [p * n / 100]. *)
Lemma Int_part_percent (p : Z) (n : nat) :
  Int_part (IZR p / 100 * INR n) = (p * Z.of_nat n / 100)%Z.
Proof.
  symmetry. apply Int_part_spec.
  rewrite INR_IZR_INZ.
  set (m := (p * Z.of_nat n)%Z).
  assert (E : IZR p / 100 * IZR (Z.of_nat n) = IZR m / 100)
    by (unfold m; rewrite mult_IZR; field).
  rewrite E; clear E.
  pose proof (Z.div_mod m 100 ltac:(lia)) as Hdm.
  pose proof (Z.mod_pos_bound m 100 ltac:(lia)) as [Hlo Hhi].
  assert (Hm : IZR m = 100 * IZR (m / 100) + IZR (m mod 100)).
  { rewrite Hdm at 1. rewrite plus_IZR, mult_IZR. reflexivity. }
  apply IZR_le in Hlo. apply IZR_lt in Hhi.
  split; lra.
Qed.

Lemma leaks_floor (n : nat) : leaks n = Int_part (0.85 * INR n).
Proof.
  unfold leaks. apply py_int_nonneg.
  pose proof (pos_INR n). lra.
Qed.

Lemma breaks_floor (n : nat) : breaks n = Int_part (0.15 * INR n).
Proof.
  unfold breaks. apply py_int_nonneg.
  pose proof (pos_INR n). lra.
Qed.

Lemma leaks_quotient (n : nat) : leaks n = (85 * Z.of_nat n / 100)%Z.
Proof.
  rewrite leaks_floor, <- Int_part_percent. reflexivity.
Qed.

Lemma breaks_quotient (n : nat) : breaks n = (15 * Z.of_nat n / 100)%Z.
Proof.
  rewrite breaks_floor, <- Int_part_percent. reflexivity.
Qed.

Lemma leaks_nonneg (n : nat) : 0 <= IZR (leaks n).
Proof.
  rewrite leaks_quotient. apply IZR_le. apply Z.div_pos; lia.
Qed.

Lemma breaks_nonneg (n : nat) : 0 <= IZR (breaks n).
Proof.
  rewrite breaks_quotient. apply IZR_le. apply Z.div_pos; lia.
Qed.

(** Bounds on [PI] from the arctangent series at 1/2, 1/3 and 1/7. *)
Lemma PI_bounds : 3.1415 < PI < 3.1417.
Proof.
  pose proof (PI_2_3_7_ineq 2) as [Hlo Hhi].
  unfold PI_2_3_7_tg, tg_alt, Ratan_seq in Hlo, Hhi.
  simpl in Hlo, Hhi.
  split; lra.
Qed.

(** ** The groups come in ascending order of their keys *)

Lemma insert_key_Forall (P : Z -> Prop) (k : Z) (ks : list Z) :
  P k -> Forall P ks -> Forall P (insert_key k ks).
Proof.
  intros Hk Hks. induction Hks as [| h t Hh Ht IH]; cbn [insert_key].
  - constructor; [exact Hk | constructor].
  - destruct (k <? h)%Z; [constructor; [exact Hk | constructor; assumption] |].
    destruct (k =? h)%Z; constructor; assumption.
Qed.

Lemma insert_key_sorted (k : Z) (ks : list Z) :
  Sorted.StronglySorted Z.lt ks ->
  Sorted.StronglySorted Z.lt (insert_key k ks).
Proof.
  intros Hs. induction Hs as [| h t Ht IH Hall]; cbn [insert_key].
  - constructor; constructor.
  - destruct (k <? h)%Z eqn:Hlt.
    + apply Z.ltb_lt in Hlt. constructor.
      * constructor; assumption.
      * constructor; [exact Hlt |].
        eapply Forall_impl; [| exact Hall]. intros z Hz. lia.
    + destruct (k =? h)%Z eqn:Heq.
      * constructor; assumption.
      * apply Z.ltb_ge in Hlt. apply Z.eqb_neq in Heq.
        constructor; [exact IH |].
        apply insert_key_Forall; [lia | exact Hall].
Qed.

Lemma group_keys_sorted (df : list row) :
  Sorted.StronglySorted Z.lt (group_keys df).
Proof.
  unfold group_keys. induction df as [| r rest IH]; cbn [fold_right].
  - constructor.
  - apply insert_key_sorted. exact IH.
Qed.

Section EngineFacts.

Context {G : Type} {rng : NpRandom G}.
Context {WN Results : Type} {wntr : Wntr WN Results}.

Lemma area_nonneg (wn : WN) (p : string) : 0 <= area wn p.
Proof.
  unfold area. pose proof PI_RGT_0.
  pose proof (pow2_ge_0 (link_diameter wn p / 2)). nra.
Qed.

(** ** C7: the orifice area lies between zero and the full bore *)

(** C7. For every pipe and every damage draw, the computed
    [orifice_area] is not negative and does not exceed the pipe's
    cross-sectional area [PI * (diameter / 2) ^ 2]. *)
Theorem orifice_area_within_bore (wn : WN) (p : string) (num_damages : nat) :
  0 <= orifice_area wn p num_damages <= PI * (link_diameter wn p / 2) ^ 2.
Proof.
  fold (area wn p). unfold orifice_area.
  pose proof (area_nonneg wn p) as Ha.
  pose proof (leaks_nonneg num_damages) as Hl.
  pose proof (breaks_nonneg num_damages) as Hb.
  set (c := 0.03 * IZR (leaks num_damages) + 0.2 * IZR (breaks num_damages)).
  assert (Hc : 0 <= c) by (unfold c; lra).
  unfold py_min.
  destruct (Rlt_dec (area wn p) (c * area wn p)) as [Hlt | Hge]; nra.
Qed.

Lemma plan_within_bore_set (wn : WN) (plan : dict R) (p : string) (a : R) :
  plan_within_bore wn plan ->
  0 <= a <= PI * (link_diameter wn p / 2) ^ 2 ->
  plan_within_bore wn (dict_set plan p a).
Proof.
  unfold plan_within_bore. intros Hplan Ha.
  induction plan as [| [k v] t IH]; simpl.
  - constructor; [exact Ha | constructor].
  - inversion Hplan as [| ? ? Hkv Ht]; subst.
    destruct (String.eqb k p) eqn:E.
    + apply String.eqb_eq in E. subst k. constructor; assumption.
    + constructor; [assumption | apply IH; assumption].
Qed.

Lemma damage_rows_within_bore (wn : WN) (rows : list row) :
  forall (acc : dict R) (g g' : G) (plan : dict R),
    plan_within_bore wn acc ->
    damage_rows wn acc rows g = (Returned plan, g') ->
    plan_within_bore wn plan.
Proof.
  induction rows as [| r rest IH]; intros acc g g' plan Hacc Hrun.
  - simpl in Hrun. unfold ret in Hrun. inversion Hrun; subst. exact Hacc.
  - simpl in Hrun. unfold bind in Hrun.
    destruct (damage_row wn acc r g) as [[d | e] g1] eqn:Erow;
      [| discriminate].
    apply (IH d g1 g' plan); [| exact Hrun].
    unfold damage_row in Erow.
    destruct (name_in (site_id r) (pipe_name_list wn));
      [| unfold ret in Erow; inversion Erow; subst; exact Hacc].
    unfold bind, np_random_poisson, np_random_uniform in Erow.
    destruct (Rlt_dec (repair_rate r * link_length_m wn (site_id r)) 0)
      as [Hneg | Hrate]; [discriminate |].
    destruct (poisson_draw _ g) as [n g2].
    destruct (uniform_draw g2) as [u g3].
    destruct (Rlt_dec u (pf wn r)); unfold ret in Erow; inversion Erow; subst.
    + apply plan_within_bore_set; [exact Hacc | apply orifice_area_within_bore].
    + exact Hacc.
Qed.

Lemma apply_damage_states_within_bore (wn : WN) (rows : list row)
  (g g' : G) (plan : dict R) :
  apply_damage_states wn rows g = (Returned plan, g') ->
  plan_within_bore wn plan.
Proof.
  apply damage_rows_within_bore. constructor.
Qed.

End EngineFacts.

(** ** The arithmetic of a draw *)

Section DamageDraw.

Context {G : Type} {rng : NpRandom G}.
Context {WN Results : Type} {wntr : Wntr WN Results}.

Lemma pf_formula (wn : WN) (r : row) :
  pf wn r = 1 - exp (- (repair_rate r * link_length_m wn (site_id r))).
Proof.
  unfold pf. f_equal. f_equal. ring.
Qed.

(** Three damages on a pipe of diameter 0.5: two leaks, no break, and
    6 % of the bore. *)
Lemma orifice_area_three (wn : WN) (p : string) :
  link_diameter wn p = 0.5 ->
  leaks 3 = 2%Z /\ breaks 3 = 0%Z /\
  Rabs (orifice_area wn p 3 - 0.01178) < 0.000005.
Proof.
  intros Hd.
  assert (Hl : leaks 3 = 2%Z) by (rewrite leaks_quotient; reflexivity).
  assert (Hb : breaks 3 = 0%Z) by (rewrite breaks_quotient; reflexivity).
  split; [exact Hl | split; [exact Hb |]].
  unfold orifice_area, area. rewrite Hl, Hb, Hd, py_min_Rmin.
  pose proof PI_bounds as [Hlo Hhi].
  unfold Rmin.
  destruct (Rle_dec _ _) as [Hle | Hgt]; [| exfalso; apply Hgt; nra].
  apply Rabs_def1; nra.
Qed.

End DamageDraw.

(** ** Stepping the engine *)

Section Steps.

Context {G : Type} {rng : NpRandom G}.
Context {WN Results : Type} {wntr : Wntr WN Results}.

Lemma mean_singleton (x : R) : mean [x] = x.
Proof.
  unfold mean. simpl. field.
Qed.

Lemma pf_zero (wn : WN) (r : row) :
  repair_rate r * link_length_m wn (site_id r) = 0 -> pf wn r = 0.
Proof.
  intros Hz. rewrite pf_formula, Hz, Ropp_0, exp_0. ring.
Qed.

Lemma pf_pos (wn : WN) (r : row) :
  0 < repair_rate r * link_length_m wn (site_id r) -> 0 < pf wn r.
Proof.
  intros Hpos. rewrite pf_formula.
  assert (Hexp : exp (- (repair_rate r * link_length_m wn (site_id r))) < 1).
  { rewrite <- exp_0. apply exp_increasing. lra. }
  lra.
Qed.

Lemma damage_row_not_pipe (wn : WN) (plan : dict R) (r : row) (g : G) :
  name_in (site_id r) (pipe_name_list wn) = false ->
  damage_row wn plan r g = (Returned plan, g).
Proof.
  intros Hno. unfold damage_row. rewrite Hno. reflexivity.
Qed.

Lemma damage_row_pipe (wn : WN) (plan : dict R) (r : row) (g : G) :
  name_in (site_id r) (pipe_name_list wn) = true ->
  0 <= repair_rate r * link_length_m wn (site_id r) ->
  let lam := repair_rate r * link_length_m wn (site_id r) in
  let g1 := snd (poisson_draw lam g) in
  damage_row wn plan r g =
    (Returned
       (if Rlt_dec (fst (uniform_draw g1)) (pf wn r)
        then dict_set plan (site_id r)
               (orifice_area wn (site_id r) (fst (poisson_draw lam g)))
        else plan),
     snd (uniform_draw g1)).
Proof.
  intros Hpipe Hrate. cbv zeta.
  unfold damage_row. rewrite Hpipe.
  unfold bind, np_random_poisson, np_random_uniform.
  destruct (Rlt_dec _ 0) as [Hneg | _]; [lra |].
  destruct (poisson_draw _ g) as [n g1]; simpl.
  destruct (uniform_draw g1) as [u g2]; simpl.
  destruct (Rlt_dec u (pf wn r)); reflexivity.
Qed.

Lemma run_scenario_returned (path : string) (cfg : config) (rows : list row)
  (g g' : G) (plan : dict R) (wn' : WN) (results : Results) :
  apply_damage_states (fresh_network path cfg) rows g = (Returned plan, g') ->
  apply_orifice_areas cfg (fresh_network path cfg) plan = Returned wn' ->
  run_sim wn' = Returned results ->
  run_scenario path cfg rows g
  = (Returned (calculate_serviceability wn' results), g').
Proof.
  intros Hplan Hmut Hsim. unfold run_scenario, bind, lift, ret.
  rewrite Hplan, Hmut, Hsim. reflexivity.
Qed.

Lemma run_scenario_solver_raised (path : string) (cfg : config)
  (rows : list row) (g g' : G) (plan : dict R) (wn' : WN) (e : exn) :
  apply_damage_states (fresh_network path cfg) rows g = (Returned plan, g') ->
  apply_orifice_areas cfg (fresh_network path cfg) plan = Returned wn' ->
  run_sim wn' = Raised e ->
  run_scenario path cfg rows g = (Raised e, g').
Proof.
  intros Hplan Hmut Hsim. unfold run_scenario, bind, lift, ret.
  rewrite Hplan, Hmut, Hsim. reflexivity.
Qed.

Lemma scenario_loop_returned (path : string) (cfg : config)
  (acc : dict (list R)) (k : Z) (rows : list row)
  (rest : list (Z * list row)) (g g' : G) (serviceability : dict R) :
  run_scenario path cfg rows g = (Returned serviceability, g') ->
  scenario_loop path cfg acc ((k, rows) :: rest) g
  = scenario_loop path cfg (accumulate acc serviceability) rest g'.
Proof.
  intros Hrun. simpl. unfold bind. rewrite Hrun. reflexivity.
Qed.

Lemma scenario_loop_raised (path : string) (cfg : config)
  (acc : dict (list R)) (k : Z) (rows : list row)
  (rest : list (Z * list row)) (g g' : G) (e : exn) :
  run_scenario path cfg rows g = (Raised e, g') ->
  scenario_loop path cfg acc ((k, rows) :: rest) g = (Raised e, g').
Proof.
  intros Hrun. simpl. unfold bind. rewrite Hrun. reflexivity.
Qed.

Lemma batch_of_loop (self : HydraulicSimulator) (cfg : config) (g g' : G)
  (serviceability_dict : dict (list R)) :
  scenario_loop (epanet_file_path self) cfg [] (groupby (scenarios_df self)) g
  = (Returned serviceability_dict, g') ->
  run_hydraulic_simulation self cfg g = (reshape serviceability_dict, g').
Proof.
  intros Hloop. unfold run_hydraulic_simulation, bind, lift.
  rewrite Hloop. reflexivity.
Qed.

Lemma batch_of_loop_raised (self : HydraulicSimulator) (cfg : config)
  (g g' : G) (e : exn) :
  scenario_loop (epanet_file_path self) cfg [] (groupby (scenarios_df self)) g
  = (Raised e, g') ->
  run_hydraulic_simulation self cfg g = (Raised e, g').
Proof.
  intros Hloop. unfold run_hydraulic_simulation, bind, lift.
  rewrite Hloop. reflexivity.
Qed.

Lemma serviceability_node_emitted (wn : WN) (results : Results)
  (acc : dict R) (node : string) :
  name_in node (junction_name_list wn) = true ->
  mean (expected_demand wn node) <> 0 ->
  serviceability_node wn results acc node
  = dict_set acc node
      (mean (node_demand results node) / mean (expected_demand wn node)).
Proof.
  intros Hj Hreq. unfold serviceability_node. rewrite Hj.
  destruct (Req_dec_T _ 0) as [Hz | _]; [contradiction | reflexivity].
Qed.

Lemma serviceability_node_zero_demand (wn : WN) (results : Results)
  (acc : dict R) (node : string) :
  mean (expected_demand wn node) = 0 ->
  serviceability_node wn results acc node = acc.
Proof.
  intros Hreq. unfold serviceability_node.
  destruct (name_in node (junction_name_list wn)); [| reflexivity].
  destruct (Req_dec_T _ 0) as [_ | Hnz]; [reflexivity | contradiction].
Qed.

Lemma serviceability_node_not_junction (wn : WN) (results : Results)
  (acc : dict R) (node : string) :
  name_in node (junction_name_list wn) = false ->
  serviceability_node wn results acc node = acc.
Proof.
  intros Hj. unfold serviceability_node. rewrite Hj. reflexivity.
Qed.

End Steps.

(** ** C6: a scenario without shaking *)

Section ZeroRate.

Context {G : Type} {rng : NpRandom G}.
Context {WN Results : Type} {wntr : Wntr WN Results}.

Lemma damage_rows_zero_rate (wn : WN) (rows : list row) :
  (forall r, In r rows -> name_in (site_id r) (pipe_name_list wn) = true ->
             repair_rate r * link_length_m wn (site_id r) = 0) ->
  forall (plan : dict R) (g : G),
    exists g', damage_rows wn plan rows g = (Returned plan, g').
Proof.
  induction rows as [| r rest IH]; intros Hzero plan g.
  - exists g. reflexivity.
  - simpl. unfold bind.
    destruct (name_in (site_id r) (pipe_name_list wn)) eqn:Hpipe.
    + assert (Hz : repair_rate r * link_length_m wn (site_id r) = 0)
        by (apply Hzero; [left; reflexivity | exact Hpipe]).
      rewrite (damage_row_pipe wn plan r g Hpipe) by lra.
      pose proof (uniform_draw_range
                    (snd (poisson_draw
                            (repair_rate r * link_length_m wn (site_id r)) g)))
        as [Hu _].
      rewrite (pf_zero wn r Hz).
      destruct (Rlt_dec _ 0) as [Hlt | _]; [lra |].
      apply IH. intros r' Hin. apply Hzero. right. exact Hin.
    + rewrite (damage_row_not_pipe wn plan r g Hpipe).
      apply IH. intros r' Hin. apply Hzero. right. exact Hin.
Qed.

(** C6 (amended). When every pipe row of a scenario has
    [repair_rate * length_m = 0], the failure probability of each of
    them is 0, the damage plan is empty, no pipe is split and no leak is
    added, so the snapshot given to the solver is the freshly loaded
    network with its options set, and the scenario's serviceability is
    the one computed from solving that undamaged network. *)
Theorem zero_rate_scenario (path : string) (cfg : config) (rows : list row)
  (g : G) :
  let wn := fresh_network path cfg in
  (forall r, In r rows -> name_in (site_id r) (pipe_name_list wn) = true ->
             repair_rate r * link_length_m wn (site_id r) = 0) ->
  (forall r, In r rows -> name_in (site_id r) (pipe_name_list wn) = true ->
             pf wn r = 0)
  /\ exists g',
       apply_damage_states wn rows g = (Returned [], g')
       /\ apply_orifice_areas cfg wn [] = Returned wn
       /\ run_scenario path cfg rows g
          = (match run_sim wn with
             | Returned results =>
                 Returned (calculate_serviceability wn results)
             | Raised e => Raised e
             end, g').
Proof.
  intros wn Hzero. split.
  - intros r Hin Hpipe. apply pf_zero. apply Hzero; assumption.
  - destruct (damage_rows_zero_rate wn rows Hzero [] g) as [g' Hplan].
    exists g'. split; [exact Hplan | split; [reflexivity |]].
    unfold run_scenario, bind, lift, ret. fold wn.
    unfold apply_damage_states. rewrite Hplan. simpl.
    destruct (run_sim wn); reflexivity.
Qed.

End ZeroRate.

(** ** C9: a failed pipe with an orifice area of zero *)

Section ZeroAreaLeak.

Context {G : Type} {rng : NpRandom G}.
Context {WN Results : Type} {wntr : Wntr WN Results}.

Lemma orifice_area_small_draw (wn : WN) (p : string) (n : nat) :
  (n <= 1)%nat -> orifice_area wn p n = 0.
Proof.
  intros Hn. unfold orifice_area.
  assert (Hl : leaks n = 0%Z).
  { rewrite leaks_quotient.
    destruct n as [| [| n']]; [reflexivity | reflexivity | lia]. }
  assert (Hb : breaks n = 0%Z).
  { rewrite breaks_quotient.
    destruct n as [| [| n']]; [reflexivity | reflexivity | lia]. }
  rewrite Hl, Hb. pose proof (area_nonneg wn p) as Ha.
  unfold py_min.
  destruct (Rlt_dec _ _) as [Hlt | _]; [exfalso; lra | ring].
Qed.

(** C9. When the Poisson draw of a pipe row is at most one damage, so
    that both counts floor to zero, and the uniform draw falls below
    [pf], the pipe enters the damage plan with an orifice area of 0,
    the pipe is split and a leak of area 0 is put on the new junction:
    the snapshot given to the solver carries that leak. *)
Theorem zero_area_leak_inserted (path : string) (cfg : config) (r : row)
  (g : G) (wn1 : WN) :
  let wn := fresh_network path cfg in
  let p := site_id r in
  let lam := repair_rate r * link_length_m wn p in
  let g1 := snd (poisson_draw lam g) in
  let leaky :=
    add_leak wn1 ("Leak_" ++ p)%string 0
      (leak_start_time cfg) (leak_end_time cfg) in
  name_in p (pipe_name_list wn) = true ->
  0 <= lam ->
  (fst (poisson_draw lam g) <= 1)%nat ->
  fst (uniform_draw g1) < pf wn r ->
  split_pipe wn p (p ++ "_A")%string ("Leak_" ++ p)%string = Returned wn1 ->
  orifice_area wn p (fst (poisson_draw lam g)) = 0
  /\ apply_damage_states wn [r] g = (Returned [(p, 0)], snd (uniform_draw g1))
  /\ apply_orifice_areas cfg wn [(p, 0)] = Returned leaky
  /\ run_scenario path cfg [r] g
     = (match run_sim leaky with
        | Returned results => Returned (calculate_serviceability leaky results)
        | Raised e => Raised e
        end, snd (uniform_draw g1)).
Proof.
  intros wn p lam g1 leaky Hpipe Hrate Hsmall Hfail Hsplit.
  assert (Hzero : orifice_area wn p (fst (poisson_draw lam g)) = 0)
    by (apply orifice_area_small_draw; exact Hsmall).
  assert (Hplan : apply_damage_states wn [r] g
                  = (Returned [(p, 0)], snd (uniform_draw g1))).
  { unfold apply_damage_states. simpl. unfold bind.
    rewrite (damage_row_pipe wn [] r g Hpipe Hrate).
    fold p lam g1. rewrite Hzero.
    destruct (Rlt_dec _ _) as [_ | Hno]; [reflexivity | contradiction]. }
  assert (Hmut : apply_orifice_areas cfg wn [(p, 0)] = Returned leaky).
  { cbn [apply_orifice_areas]. fold p. rewrite Hsplit. reflexivity. }
  split; [exact Hzero | split; [exact Hplan | split; [exact Hmut |]]].
  unfold run_scenario, bind, lift, ret. fold wn.
  rewrite Hplan, Hmut.
  destruct (run_sim leaky); reflexivity.
Qed.

End ZeroAreaLeak.

(** ** C8: rows that do not name a pipe *)

Section UnknownSites.

Context {G : Type} {rng : NpRandom G}.
Context {WN Results : Type} {wntr : Wntr WN Results}.

Lemma damage_rows_filter (wn : WN) (rows : list row) :
  forall (plan : dict R) (g : G),
    damage_rows wn plan rows g
    = damage_rows wn plan (filter (names_pipe wn) rows) g.
Proof.
  induction rows as [| r rest IH]; intros plan g; [reflexivity |].
  cbn [filter]. unfold names_pipe at 1.
  destruct (name_in (site_id r) (pipe_name_list wn)) eqn:Hpipe.
  - cbn [damage_rows]. unfold bind.
    destruct (damage_row wn plan r g) as [[d | e] g1]; [apply IH | reflexivity].
  - cbn [damage_rows]. unfold bind.
    rewrite (damage_row_not_pipe wn plan r g Hpipe). apply IH.
Qed.

Lemma damage_rows_no_pipe (wn : WN) (rows : list row) (plan : dict R) (g : G) :
  forallb (fun r => negb (names_pipe wn r)) rows = true ->
  damage_rows wn plan rows g = (Returned plan, g).
Proof.
  intros Hnone. rewrite damage_rows_filter.
  replace (filter (names_pipe wn) rows) with (@nil row); [reflexivity |].
  induction rows as [| r rest IH]; [reflexivity |].
  cbn [forallb] in Hnone. apply andb_true_iff in Hnone as [Hr Hrest].
  cbn [filter]. apply negb_true_iff in Hr. rewrite Hr. apply IH. exact Hrest.
Qed.

(** C8 (amended). A scenario row whose [site_id] is not the name of a
    pipe of the network is skipped: the damage plan and the generator
    are those of the scenario without that row, and nothing is
    raised. *)
Theorem unknown_sites_skipped (wn : WN) (rows : list row) (g : G) :
  apply_damage_states wn rows g
  = apply_damage_states wn
      (filter (fun r => name_in (site_id r) (pipe_name_list wn)) rows) g.
Proof.
  unfold apply_damage_states. apply damage_rows_filter.
Qed.

End UnknownSites.

(** ** What the reducer records *)

Section Ratio.

Context {G : Type} {rng : NpRandom G}.
Context {WN Results : Type} {wntr : Wntr WN Results}.

Lemma Forall_dict_set {V : Type} (P : string -> V -> Prop) (d : dict V)
  (k : string) (v : V) :
  Forall (fun kv => P (fst kv) (snd kv)) d ->
  P k v ->
  Forall (fun kv => P (fst kv) (snd kv)) (dict_set d k v).
Proof.
  intros Hd Hkv.
  induction d as [| [k' v'] t IH]; simpl.
  - constructor; [exact Hkv | constructor].
  - inversion Hd as [| ? ? Hhead Htail]; subst.
    destruct (String.eqb k' k) eqn:E.
    + apply String.eqb_eq in E. subst k'. constructor; assumption.
    + constructor; [assumption | apply IH; assumption].
Qed.

Lemma serviceability_fold_ratio (wn : WN) (results : Results)
  (nodes : list string) :
  forall acc : dict R,
    Forall (fun kv => ratio_of wn results (fst kv) (snd kv)) acc ->
    Forall (fun kv => ratio_of wn results (fst kv) (snd kv))
           (fold_left (serviceability_node wn results) nodes acc).
Proof.
  induction nodes as [| node rest IH]; intros acc Hacc; [exact Hacc |].
  cbn [fold_left]. apply IH.
  unfold serviceability_node.
  destruct (name_in node (junction_name_list wn)) eqn:Hj; [| exact Hacc].
  destruct (Req_dec_T (mean (expected_demand wn node)) 0) as [Hz | Hnz];
    [exact Hacc |].
  apply Forall_dict_set; [exact Hacc |].
  split; [exact Hj | split; [exact Hnz | reflexivity]].
Qed.

Lemma calculate_serviceability_ratio (wn : WN) (results : Results)
  (node : string) (v : R) :
  In (node, v) (calculate_serviceability wn results) ->
  ratio_of wn results node v.
Proof.
  intros Hin.
  pose proof (serviceability_fold_ratio wn results (node_name_list wn) []
                (Forall_nil _)) as Hall.
  rewrite Forall_forall in Hall. exact (Hall (node, v) Hin).
Qed.

Lemma run_scenario_inversion (path : string) (cfg : config) (rows : list row)
  (g g' : G) (serviceability : dict R) :
  run_scenario path cfg rows g = (Returned serviceability, g') ->
  exists plan wn' results,
    apply_damage_states (fresh_network path cfg) rows g = (Returned plan, g')
    /\ apply_orifice_areas cfg (fresh_network path cfg) plan = Returned wn'
    /\ run_sim wn' = Returned results
    /\ serviceability = calculate_serviceability wn' results.
Proof.
  unfold run_scenario, bind, lift, ret. intros Hrun.
  destruct (apply_damage_states (fresh_network path cfg) rows g)
    as [[plan | e] g1] eqn:Hplan; [| discriminate].
  destruct (apply_orifice_areas cfg (fresh_network path cfg) plan)
    as [wn' | e] eqn:Hmut; [| discriminate].
  destruct (run_sim wn') as [results | e] eqn:Hsim; [| discriminate].
  inversion Hrun; subst.
  exists plan, wn', results. repeat split; assumption.
Qed.

Lemma single_failed_row (wn : WN) (r : row) (g : G) :
  let lam := repair_rate r * link_length_m wn (site_id r) in
  let g1 := snd (poisson_draw lam g) in
  name_in (site_id r) (pipe_name_list wn) = true ->
  0 <= lam ->
  fst (uniform_draw g1) < pf wn r ->
  apply_damage_states wn [r] g
  = (Returned [(site_id r,
                orifice_area wn (site_id r) (fst (poisson_draw lam g)))],
     snd (uniform_draw g1)).
Proof.
  intros lam g1 Hpipe Hrate Hfail.
  unfold apply_damage_states. cbn [damage_rows]. unfold bind.
  rewrite (damage_row_pipe wn [] r g Hpipe Hrate).
  fold lam g1.
  destruct (Rlt_dec _ _) as [_ | Hno]; [reflexivity | contradiction].
Qed.

End Ratio.

(** ** The loop over the scenarios *)

Section SolverFailure.

Context {G : Type} {rng : NpRandom G}.
Context {WN Results : Type} {wntr : Wntr WN Results}.

Lemma scenario_loop_app (path : string) (cfg : config)
  (pre post : list (Z * list row)) :
  forall (acc : dict (list R)) (g : G),
    scenario_loop path cfg acc (pre ++ post) g
    = (acc' <- scenario_loop path cfg acc pre ;;
       scenario_loop path cfg acc' post) g.
Proof.
  induction pre as [| [k rows] pre IH]; intros acc g.
  - reflexivity.
  - cbn [app scenario_loop]. unfold bind.
    destruct (run_scenario path cfg rows g) as [[serv | e] g1];
      [| reflexivity].
    rewrite IH. unfold bind. reflexivity.
Qed.

End SolverFailure.

(** ** Rows planned one after the other *)

Section RowsAppended.

Context {G : Type} {rng : NpRandom G}.
Context {WN Results : Type} {wntr : Wntr WN Results}.

Lemma damage_rows_app (wn : WN) (rows1 rows2 : list row) :
  forall (plan : dict R) (g : G),
    damage_rows wn plan (rows1 ++ rows2) g
    = (plan1 <- damage_rows wn plan rows1 ;; damage_rows wn plan1 rows2) g.
Proof.
  induction rows1 as [| r rest IH]; intros plan g; [reflexivity |].
  cbn [app damage_rows]. unfold bind.
  destruct (damage_row wn plan r g) as [[d | e] g1]; [| reflexivity].
  rewrite IH. unfold bind. reflexivity.
Qed.

End RowsAppended.

(** ** The reshape *)

Section Reshape.

Context {G : Type} {rng : NpRandom G}.
Context {WN Results : Type} {wntr : Wntr WN Results}.

Lemma same_lengths_true (d : dict (list R)) :
  same_lengths d = true <->
  (forall kv kv', In kv d -> In kv' d ->
                  List.length (snd kv) = List.length (snd kv')).
Proof.
  unfold same_lengths. rewrite forallb_forall. split.
  - intros Hall kv kv' Hin Hin'.
    apply Hall in Hin. apply Hall in Hin'.
    apply Nat.eqb_eq in Hin. apply Nat.eqb_eq in Hin'. congruence.
  - intros Heq kv Hin. apply Nat.eqb_eq.
    destruct d as [| [k0 v0] t]; [destruct Hin |].
    cbn [columns_length].
    apply (Heq kv (k0, v0) Hin). left. reflexivity.
Qed.

Lemma same_lengths_false (d : dict (list R)) :
  same_lengths d = false <-> lengths_differ d.
Proof.
  split.
  - intros Hfalse. unfold same_lengths in Hfalse.
    destruct d as [| [k0 v0] t]; [discriminate |].
    cbn [columns_length] in Hfalse.
    assert (Hex : exists kv, In kv ((k0, v0) :: t)
                   /\ List.length (snd kv) <> List.length v0).
    { revert Hfalse. generalize ((k0, v0) :: t) as l.
      induction l as [| kv l IH]; intros Hfalse; [discriminate |].
      cbn [forallb] in Hfalse. apply andb_false_iff in Hfalse as [Hkv | Hl].
      - exists kv. split; [left; reflexivity |].
        apply Nat.eqb_neq. exact Hkv.
      - destruct (IH Hl) as [kv' [Hin Hne]].
        exists kv'. split; [right; exact Hin | exact Hne]. }
    destruct Hex as [kv [Hin Hne]].
    exists kv, (k0, v0). split; [exact Hin | split; [left; reflexivity |]].
    exact Hne.
  - intros (kv & kv' & Hin & Hin' & Hne).
    destruct (same_lengths d) eqn:Hs; [| reflexivity].
    exfalso. apply Hne.
    apply (proj1 (same_lengths_true d) Hs); assumption.
Qed.

Lemma reshape_returned (d : dict (list R)) :
  same_lengths d = true -> reshape d = Returned (melt d).
Proof.
  intros Hs. unfold reshape, DataFrame_from_dict. rewrite Hs. reflexivity.
Qed.

Lemma reshape_raised (d : dict (list R)) :
  same_lengths d = false -> reshape d = Raised ValueError.
Proof.
  intros Hs. unfold reshape, DataFrame_from_dict. rewrite Hs. reflexivity.
Qed.

(** The label of a record is the position of its column. *)
Lemma melt_labels_positions (wide : dict (list R)) (rec : ServiceabilityRecord) :
  In rec (melt wide) ->
  (0 <= rec_scenario_index rec < Z.of_nat (columns_length wide))%Z.
Proof.
  unfold melt. intros Hin.
  apply in_flat_map in Hin as [j [Hj Hrec]].
  apply in_seq in Hj.
  apply in_map_iff in Hrec as [kv [Hkv _]].
  subst rec. cbn [rec_scenario_index]. lia.
Qed.

End Reshape.

(** * Further properties *)

(** ** Dictionaries *)

Lemma name_in_In (x : string) (names : list string) :
  name_in x names = true <-> In x names.
Proof.
  induction names as [| y t IH]; cbn [name_in In].
  - split; [discriminate | contradiction].
  - rewrite orb_true_iff, String.eqb_eq, IH. reflexivity.
Qed.

Lemma name_in_not_In (x : string) (names : list string) :
  name_in x names = false <-> ~ In x names.
Proof.
  rewrite <- name_in_In. destruct (name_in x names); split; congruence.
Qed.

Lemma dict_get_set_same {V} (d : dict V) (k : string) (v : V) :
  dict_get (dict_set d k v) k = Some v.
Proof.
  induction d as [| [k' v'] t IH]; cbn [dict_set dict_get].
  - rewrite String.eqb_refl. reflexivity.
  - destruct (String.eqb k' k) eqn:E; cbn [dict_get]; rewrite E;
      [reflexivity | exact IH].
Qed.

Lemma dict_get_set_other {V} (d : dict V) (k k' : string) (v : V) :
  k <> k' -> dict_get (dict_set d k v) k' = dict_get d k'.
Proof.
  intros Hne. induction d as [| [k0 v0] t IH]; cbn [dict_set dict_get].
  - apply String.eqb_neq in Hne. rewrite Hne. reflexivity.
  - destruct (String.eqb k0 k) eqn:E; cbn [dict_get].
    + apply String.eqb_eq in E. subst k0.
      apply String.eqb_neq in Hne. rewrite Hne. reflexivity.
    + destruct (String.eqb k0 k'); [reflexivity | exact IH].
Qed.

Lemma dict_set_keys {V} (d : dict V) (k : string) (v : V) :
  map fst (dict_set d k v)
  = if name_in k (map fst d) then map fst d else map fst d ++ [k].
Proof.
  induction d as [| [k' v'] t IH]; cbn [dict_set map fst name_in app];
    [reflexivity |].
  destruct (String.eqb k' k) eqn:E; cbn [orb map fst].
  - reflexivity.
  - rewrite IH. destruct (name_in k (map fst t)); reflexivity.
Qed.

Lemma dict_set_keys_NoDup {V} (d : dict V) (k : string) (v : V) :
  NoDup (map fst d) -> NoDup (map fst (dict_set d k v)).
Proof.
  intros Hd. rewrite dict_set_keys.
  destruct (name_in k (map fst d)) eqn:E; [exact Hd |].
  apply name_in_not_In in E.
  apply NoDup_rev in Hd. rewrite <- (rev_involutive (map fst d ++ [k])).
  apply NoDup_rev. rewrite rev_app_distr. cbn [rev app].
  constructor; [rewrite <- in_rev; exact E | exact Hd].
Qed.

Lemma dict_get_In {V} (d : dict V) (k : string) (v : V) :
  dict_get d k = Some v -> In (k, v) d.
Proof.
  induction d as [| [k' v'] t IH]; cbn [dict_get]; [discriminate |].
  destruct (String.eqb k' k) eqn:E.
  - intros Hv. inversion Hv; subst. apply String.eqb_eq in E. subst.
    left. reflexivity.
  - intros Hv. right. apply IH. exact Hv.
Qed.

Lemma dict_get_None {V} (d : dict V) (k : string) :
  dict_get d k = None <-> ~ In k (map fst d).
Proof.
  induction d as [| [k' v'] t IH]; cbn [dict_get map fst In].
  - split; [intros _ [] | reflexivity].
  - destruct (String.eqb k' k) eqn:E.
    + apply String.eqb_eq in E. split; [discriminate |].
      intros Hn. exfalso. apply Hn. left. exact E.
    + apply String.eqb_neq in E. rewrite IH. split.
      * intros Hn [Hk | Hin]; [contradiction | exact (Hn Hin)].
      * intros Hn Hin. apply Hn. right. exact Hin.
Qed.

(** ** The damage planner *)

Section Planner.

Context {G : Type} {rng : NpRandom G}.
Context {WN Results : Type} {wntr : Wntr WN Results}.

Lemma damage_row_inversion (wn : WN) (plan plan' : dict R) (r : row)
  (g g' : G) :
  damage_row wn plan r g = (Returned plan', g') ->
  g' = draws_of_row wn g r
  /\ (plan' = plan
      \/ (names_pipe wn r = true
          /\ exists a, plan' = dict_set plan (site_id r) a)).
Proof.
  unfold damage_row, draws_of_row, names_pipe.
  destruct (name_in (site_id r) (pipe_name_list wn)) eqn:Hpipe.
  - unfold bind, np_random_poisson, np_random_uniform.
    destruct (Rlt_dec _ 0) as [Hneg | Hrate]; [discriminate |].
    destruct (poisson_draw _ g) as [n g1]; cbn [snd].
    destruct (uniform_draw g1) as [u g2]; cbn [snd].
    destruct (Rlt_dec u (pf wn r)); unfold ret; intros Hrow;
      inversion Hrow; subst.
    + split; [reflexivity |]. right. split; [reflexivity |].
      eexists. reflexivity.
    + split; [reflexivity | left; reflexivity].
  - unfold ret. intros Hrow. inversion Hrow; subst.
    split; [reflexivity | left; reflexivity].
Qed.

Lemma damage_rows_keys (wn : WN) (rows : list row) :
  forall (acc plan : dict R) (g g' : G),
    damage_rows wn acc rows g = (Returned plan, g') ->
    NoDup (map fst acc) ->
    NoDup (map fst plan)
    /\ forall p, In p (map fst plan) ->
                 In p (map fst acc)
                 \/ (In p (pipe_name_list wn)
                     /\ exists r, In r rows /\ site_id r = p).
Proof.
  induction rows as [| r rest IH]; intros acc plan g g' Hrun Hacc.
  - cbn [damage_rows] in Hrun. unfold ret in Hrun. inversion Hrun; subst.
    split; [exact Hacc | intros p Hp; left; exact Hp].
  - cbn [damage_rows] in Hrun. unfold bind in Hrun.
    destruct (damage_row wn acc r g) as [[d | e] g1] eqn:Erow;
      [| discriminate].
    destruct (damage_row_inversion wn acc d r g g1 Erow)
      as [_ [Hsame | [Hpipe [a Hset]]]].
    + subst d. destruct (IH acc plan g1 g' Hrun Hacc) as [Hnd Hkeys].
      split; [exact Hnd |]. intros p Hp.
      destruct (Hkeys p Hp) as [Hin | [Hpn [r' [Hr' Hs]]]];
        [left; exact Hin |].
      right. split; [exact Hpn |]. exists r'. split; [right |]; assumption.
    + subst d.
      destruct (IH _ plan g1 g' Hrun (dict_set_keys_NoDup acc _ a Hacc))
        as [Hnd Hkeys].
      split; [exact Hnd |]. intros p Hp.
      destruct (Hkeys p Hp) as [Hin | [Hpn [r' [Hr' Hs]]]].
      * rewrite dict_set_keys in Hin.
        destruct (name_in (site_id r) (map fst acc)); [left; exact Hin |].
        apply in_app_or in Hin as [Hin | [Hin | []]]; [left; exact Hin |].
        right. subst p. split.
        -- apply name_in_In. exact Hpipe.
        -- exists r. split; [left |]; reflexivity.
      * right. split; [exact Hpn |]. exists r'. split; [right |]; assumption.
Qed.

(** X1. A damage plan names each pipe at most once, however often the
    scenario repeats a row, and names only pipes of the network that a
    row of the scenario names. *)
Theorem plan_names_distinct_pipes (wn : WN) (rows : list row) (g g' : G)
  (plan : dict R) :
  apply_damage_states wn rows g = (Returned plan, g') ->
  NoDup (map fst plan)
  /\ forall p, In p (map fst plan) ->
               In p (pipe_name_list wn)
               /\ exists r, In r rows /\ site_id r = p.
Proof.
  intros Hrun.
  destruct (damage_rows_keys wn rows [] plan g g' Hrun (NoDup_nil _))
    as [Hnd Hkeys].
  split; [exact Hnd |]. intros p Hp.
  destruct (Hkeys p Hp) as [[] | Hok]. exact Hok.
Qed.

Lemma damage_rows_draws (wn : WN) (rows : list row) :
  forall (acc plan : dict R) (g g' : G),
    damage_rows wn acc rows g = (Returned plan, g') ->
    g' = draws_of_rows wn rows g.
Proof.
  induction rows as [| r rest IH]; intros acc plan g g' Hrun.
  - cbn [damage_rows] in Hrun. unfold ret in Hrun. inversion Hrun; subst.
    reflexivity.
  - cbn [damage_rows] in Hrun. unfold bind in Hrun.
    destruct (damage_row wn acc r g) as [[d | e] g1] eqn:Erow;
      [| discriminate].
    destruct (damage_row_inversion wn acc d r g g1 Erow) as [Hg1 _].
    unfold draws_of_rows. cbn [fold_left]. rewrite <- Hg1.
    apply (IH d plan g1 g' Hrun).
Qed.

(** X2. A group that is planned without an error has consumed one
    Poisson draw followed by one uniform draw for each of its rows that
    names a pipe, whether that pipe failed or not, and no draw for any
    other row. *)
Theorem draws_consumed_per_pipe_row (wn : WN) (rows : list row) (g g' : G)
  (plan : dict R) :
  apply_damage_states wn rows g = (Returned plan, g') ->
  g' = draws_of_rows wn rows g.
Proof.
  apply damage_rows_draws.
Qed.

(** X3. A row that names a pipe at a negative rate, for instance under a
    negative PGV, makes the planner raise [ValueError], the rows before
    it having been processed; nothing is drawn for it or after it. *)
Theorem negative_rate_raises (wn : WN) (pre post : list row) (r : row)
  (g g1 : G) (plan : dict R) :
  apply_damage_states wn pre g = (Returned plan, g1) ->
  name_in (site_id r) (pipe_name_list wn) = true ->
  repair_rate r * link_length_m wn (site_id r) < 0 ->
  apply_damage_states wn (pre ++ r :: post) g = (Raised ValueError, g1).
Proof.
  intros Hpre Hpipe Hneg. unfold apply_damage_states in *.
  rewrite damage_rows_app. unfold bind at 1. rewrite Hpre.
  cbn [damage_rows]. unfold bind, damage_row. rewrite Hpipe.
  unfold bind, np_random_poisson.
  destruct (Rlt_dec _ 0) as [_ | Hno]; [reflexivity | contradiction].
Qed.

(** X5. Flooring the two shares loses at most one damage: the leaks and
    the breaks add up to the number of damages or to one less. *)
Theorem leaks_and_breaks_total (n : nat) :
  (Z.of_nat n - 1 <= leaks n + breaks n <= Z.of_nat n)%Z.
Proof.
  rewrite leaks_quotient, breaks_quotient.
  pose proof (Z.div_mod (85 * Z.of_nat n) 100 ltac:(lia)) as H1.
  pose proof (Z.mod_pos_bound (85 * Z.of_nat n) 100 ltac:(lia)) as B1.
  pose proof (Z.div_mod (15 * Z.of_nat n) 100 ltac:(lia)) as H2.
  pose proof (Z.mod_pos_bound (15 * Z.of_nat n) 100 ltac:(lia)) as B2.
  lia.
Qed.

Lemma orifice_coefficient (n : nat) :
  0.03 * IZR (leaks n) + 0.2 * IZR (breaks n)
  = IZR (3 * leaks n + 20 * breaks n) / 100.
Proof.
  rewrite plus_IZR, !mult_IZR. lra.
Qed.

Lemma orifice_coefficient_threshold (n : nat) :
  (100 <= 3 * leaks n + 20 * breaks n)%Z <-> (20 <= n)%nat.
Proof.
  rewrite leaks_quotient, breaks_quotient.
  pose proof (Z.div_mod (85 * Z.of_nat n) 100 ltac:(lia)) as H1.
  pose proof (Z.mod_pos_bound (85 * Z.of_nat n) 100 ltac:(lia)) as B1.
  pose proof (Z.div_mod (15 * Z.of_nat n) 100 ltac:(lia)) as H2.
  pose proof (Z.mod_pos_bound (15 * Z.of_nat n) 100 ltac:(lia)) as B2.
  lia.
Qed.

(** X6. On a pipe whose diameter is not zero the orifice area reaches
    the full bore exactly from twenty damages on. *)
Theorem full_bore_from_twenty_damages (wn : WN) (p : string) (n : nat) :
  link_diameter wn p <> 0 ->
  (orifice_area wn p n = PI * (link_diameter wn p / 2) ^ 2 <-> (20 <= n)%nat).
Proof.
  intros Hd. fold (area wn p).
  assert (Ha : 0 < area wn p).
  { unfold area. pose proof PI_RGT_0.
    assert (0 < (link_diameter wn p / 2) ^ 2)
      by (destruct (Rdichotomy _ _ Hd); simpl; nra).
    nra. }
  unfold orifice_area. rewrite orifice_coefficient.
  rewrite <- orifice_coefficient_threshold.
  set (c := (3 * leaks n + 20 * breaks n)%Z).
  unfold py_min.
  destruct (Rlt_dec (area wn p) (IZR c / 100 * area wn p)) as [Hlt | Hge].
  - split; [intros _ | reflexivity].
    apply le_IZR. nra.
  - split.
    + intros Heq. apply le_IZR. nra.
    + intros Hc. apply IZR_le in Hc. nra.
Qed.

(** X7. More damages never give a smaller orifice area. *)
Theorem orifice_area_monotone (wn : WN) (p : string) (n m : nat) :
  (n <= m)%nat -> orifice_area wn p n <= orifice_area wn p m.
Proof.
  intros Hnm. pose proof (area_nonneg wn p) as Ha.
  assert (Hl : IZR (leaks n) <= IZR (leaks m)).
  { rewrite !leaks_quotient. apply IZR_le. apply Z.div_le_mono; lia. }
  assert (Hb : IZR (breaks n) <= IZR (breaks m)).
  { rewrite !breaks_quotient. apply IZR_le. apply Z.div_le_mono; lia. }
  unfold orifice_area. rewrite !py_min_Rmin.
  apply Rle_min_compat_r. nra.
Qed.

End Planner.

(** ** The reducer and the accumulator *)

Section Reducer.

Context {G : Type} {rng : NpRandom G}.
Context {WN Results : Type} {wntr : Wntr WN Results}.

Lemma serviceability_fold_get (wn : WN) (results : Results)
  (nodes : list string) :
  forall (acc : dict R) (seen : list string),
    NoDup (map fst acc) ->
    (forall node v,
        dict_get acc node = Some v <->
        In node seen /\ ratio_of wn results node v) ->
    NoDup (map fst (fold_left (serviceability_node wn results) nodes acc))
    /\ forall node v,
        dict_get (fold_left (serviceability_node wn results) nodes acc) node
        = Some v <->
        In node (seen ++ nodes) /\ ratio_of wn results node v.
Proof.
  induction nodes as [| n rest IH]; intros acc seen Hnd Hacc.
  - cbn [fold_left]. rewrite app_nil_r. split; assumption.
  - cbn [fold_left].
    replace (seen ++ n :: rest) with ((seen ++ [n]) ++ rest)
      by (rewrite <- app_assoc; reflexivity).
    apply IH.
    + unfold serviceability_node.
      destruct (name_in n (junction_name_list wn)); [| exact Hnd].
      destruct (Req_dec_T _ 0); [exact Hnd |].
      apply dict_set_keys_NoDup. exact Hnd.
    + intros node v. unfold serviceability_node.
      destruct (name_in n (junction_name_list wn)) eqn:Hj.
      * destruct (Req_dec_T (mean (expected_demand wn n)) 0) as [Hz | Hnz].
        -- rewrite Hacc, in_app_iff. split.
           ++ intros [Hin Hr]. split; [left |]; assumption.
           ++ intros [[Hin | [Hn | []]] Hr]; [split; assumption |].
              subst node. destruct Hr as (_ & Hne & _). contradiction.
        -- destruct (string_dec n node) as [Heq | Hne].
           ++ subst node. rewrite dict_get_set_same. split.
              ** intros Hv. inversion Hv; subst.
                 split; [apply in_or_app; right; left; reflexivity |].
                 split; [exact Hj | split; [exact Hnz | reflexivity]].
              ** intros [_ (_ & _ & Hv)]. subst v. reflexivity.
           ++ rewrite (dict_get_set_other acc n node _ Hne), Hacc, in_app_iff.
              split.
              ** intros [Hin Hr]. split; [left |]; assumption.
              ** intros [[Hin | [Hn | []]] Hr];
                   [split; assumption | contradiction].
      * rewrite Hacc, in_app_iff. split.
        -- intros [Hin Hr]. split; [left |]; assumption.
        -- intros [[Hin | [Hn | []]] Hr]; [split; assumption |].
           subst node. destruct Hr as (Hj' & _). congruence.
Qed.

Lemma calculate_serviceability_keys_NoDup (wn : WN) (results : Results) :
  NoDup (map fst (calculate_serviceability wn results)).
Proof.
  apply (serviceability_fold_get wn results (node_name_list wn) [] []).
  - constructor.
  - intros node v. cbn [dict_get In]. split; [discriminate | intros [[] _]].
Qed.

(** X8. The reducer records a value for a node exactly when the node is
    in the node list of the snapshot, is a junction and has a mean
    expected demand other than zero; the value is then the ratio of the
    two means, and no node is recorded twice. *)
Theorem serviceability_records_exactly_eligible (wn : WN) (results : Results) :
  NoDup (map fst (calculate_serviceability wn results))
  /\ forall node v,
      dict_get (calculate_serviceability wn results) node = Some v <->
      In node (node_name_list wn)
      /\ name_in node (junction_name_list wn) = true
      /\ mean (expected_demand wn node) <> 0
      /\ v = mean (node_demand results node) / mean (expected_demand wn node).
Proof.
  apply (serviceability_fold_get wn results (node_name_list wn) [] []).
  - constructor.
  - intros node v. cbn [dict_get In]. split; [discriminate | intros [[] _]].
Qed.

Lemma accumulate_node_get (acc : dict (list R)) (node node' : string)
  (value : R) :
  dict_get (accumulate_node acc (node, value)) node'
  = if String.eqb node node'
    then Some (appended (dict_get acc node) value)
    else dict_get acc node'.
Proof.
  unfold accumulate_node, appended.
  destruct (String.eqb node node') eqn:E.
  - apply String.eqb_eq in E. subst node'.
    destruct (dict_get acc node); apply dict_get_set_same.
  - apply String.eqb_neq in E.
    destruct (dict_get acc node); apply dict_get_set_other; exact E.
Qed.

Lemma accumulate_get (serviceability : dict R) :
  forall (acc : dict (list R)) (node : string),
    NoDup (map fst serviceability) ->
    dict_get (accumulate acc serviceability) node
    = match dict_get serviceability node with
      | Some value => Some (appended (dict_get acc node) value)
      | None => dict_get acc node
      end.
Proof.
  unfold accumulate.
  induction serviceability as [| [k v] t IH]; intros acc node Hnd;
    [reflexivity |].
  cbn [fold_left map fst] in *. inversion Hnd as [| ? ? Hk Ht]; subst.
  rewrite (IH _ node Ht). cbn [dict_get].
  rewrite accumulate_node_get.
  destruct (String.eqb k node) eqn:E.
  - apply String.eqb_eq in E. subst node.
    apply dict_get_None in Hk. rewrite Hk. reflexivity.
  - destruct (dict_get t node) as [v' |]; reflexivity.
Qed.

(** X9. Accumulating the serviceability of a scenario appends exactly
    one value to the list of every node the scenario recorded, starting
    the list of a node seen for the first time, and leaves the list of
    every other node as it was. *)
Theorem accumulate_appends_one_value (wn : WN) (results : Results)
  (acc : dict (list R)) (node : string) :
  dict_get (accumulate acc (calculate_serviceability wn results)) node
  = match dict_get (calculate_serviceability wn results) node with
    | Some value =>
        Some (match dict_get acc node with
              | Some values => values ++ [value]
              | None => [value]
              end)
    | None => dict_get acc node
    end.
Proof.
  apply accumulate_get. apply calculate_serviceability_keys_NoDup.
Qed.

Lemma scenario_loop_lengths (path : string) (cfg : config)
  (groups : list (Z * list row)) :
  forall (acc d : dict (list R)) (g g' : G) (m : nat),
    scenario_loop path cfg acc groups g = (Returned d, g') ->
    (forall node values,
        dict_get acc node = Some values -> (List.length values <= m)%nat) ->
    forall node values,
      dict_get d node = Some values ->
      (List.length values <= m + List.length groups)%nat.
Proof.
  induction groups as [| [k rows] rest IH]; intros acc d g g' m Hloop Hacc.
  - cbn [scenario_loop] in Hloop. unfold ret in Hloop.
    inversion Hloop; subst. intros node values Hget.
    apply Hacc in Hget. cbn [List.length]. lia.
  - cbn [scenario_loop] in Hloop. unfold bind in Hloop.
    destruct (run_scenario path cfg rows g) as [[serv | e] g1] eqn:Hrun;
      [| discriminate].
    destruct (run_scenario_inversion path cfg rows g g1 serv Hrun)
      as (plan & wn' & results & _ & _ & _ & Hserv).
    subst serv. intros node values Hget.
    cbn [List.length]. replace (m + S (List.length rest))%nat
      with (S m + List.length rest)%nat by lia.
    refine (IH _ d g1 g' (S m) Hloop _ node values Hget).
    clear Hget node values. intros node values Hget.
    rewrite (accumulate_get _ acc node
               (calculate_serviceability_keys_NoDup wn' results)) in Hget.
    destruct (dict_get (calculate_serviceability wn' results) node).
    + inversion Hget; subst. unfold appended.
      destruct (dict_get acc node) as [old |] eqn:Hold.
      * rewrite length_app. cbn [List.length]. apply Hacc in Hold. lia.
      * cbn [List.length]. lia.
    + apply Hacc in Hget. lia.
Qed.

End Reducer.

(** ** The returned table *)

Section Table.

Context {G : Type} {rng : NpRandom G}.
Context {WN Results : Type} {wntr : Wntr WN Results}.

Lemma reshape_inversion (d : dict (list R))
  (table : list ServiceabilityRecord) :
  reshape d = Returned table -> same_lengths d = true /\ table = melt d.
Proof.
  unfold reshape, DataFrame_from_dict.
  destruct (same_lengths d); [| discriminate].
  intros Ht. inversion Ht. split; reflexivity.
Qed.

Lemma batch_inversion (self : HydraulicSimulator) (cfg : config) (g g' : G)
  (table : list ServiceabilityRecord) :
  run_hydraulic_simulation self cfg g = (Returned table, g') ->
  exists d,
    scenario_loop (epanet_file_path self) cfg []
      (groupby (scenarios_df self)) g = (Returned d, g')
    /\ reshape d = Returned table.
Proof.
  unfold run_hydraulic_simulation, bind, lift. intros Hrun.
  destruct (scenario_loop _ cfg [] _ g) as [[d | e] g1]; [| discriminate].
  inversion Hrun; subst. exists d. split; reflexivity.
Qed.

Lemma columns_length_bound (d : dict (list R)) (m : nat) :
  (forall node values,
      dict_get d node = Some values -> (List.length values <= m)%nat) ->
  (columns_length d <= m)%nat.
Proof.
  intros Hd. destruct d as [| [k values] t]; cbn [columns_length]; [lia |].
  apply (Hd k). cbn [dict_get]. rewrite String.eqb_refl. reflexivity.
Qed.

(** X10. Every record of a returned table carries a [scenario_index]
    that is at least 0 and less than the number of scenarios of the
    input, whatever the keys of those scenarios are. *)
Theorem scenario_index_below_scenario_count (self : HydraulicSimulator)
  (cfg : config) (g g' : G) (table : list ServiceabilityRecord)
  (rec : ServiceabilityRecord) :
  run_hydraulic_simulation self cfg g = (Returned table, g') ->
  In rec table ->
  (0 <= rec_scenario_index rec
   < Z.of_nat (List.length (groupby (scenarios_df self))))%Z.
Proof.
  intros Hrun Hin.
  destruct (batch_inversion self cfg g g' table Hrun) as (d & Hloop & Hre).
  destruct (reshape_inversion d table Hre) as [_ Ht]. subst table.
  pose proof (melt_labels_positions d rec Hin) as Hpos.
  assert (Hcols : (columns_length d
                   <= List.length (groupby (scenarios_df self)))%nat).
  { apply columns_length_bound.
    apply (scenario_loop_lengths _ cfg _ [] d g g' 0 Hloop).
    intros node values Hget. discriminate. }
  lia.
Qed.

Lemma same_lengths_entry (d : dict (list R)) (kv : string * list R) :
  same_lengths d = true -> In kv d ->
  List.length (snd kv) = columns_length d.
Proof.
  unfold same_lengths. rewrite forallb_forall. intros Hall Hin.
  apply Nat.eqb_eq. apply Hall. exact Hin.
Qed.

Lemma table_records_positions_aux (d : dict (list R))
  (table : list ServiceabilityRecord) (rec : ServiceabilityRecord) :
  reshape d = Returned table ->
  (In rec table <->
   exists values j,
     In (rec_site_id rec, values) d
     /\ rec_scenario_index rec = Z.of_nat j
     /\ nth_error values j = Some (rec_serviceability rec)).
Proof.
  intros Hre. destruct (reshape_inversion d table Hre) as [Hs Ht].
  subst table. unfold melt. rewrite in_flat_map. split.
  - intros [j [Hj Hrec]]. apply in_seq in Hj.
    apply in_map_iff in Hrec as [[k values] [Hkv Hin]]. subst rec.
    cbn [rec_site_id rec_scenario_index rec_serviceability fst snd].
    exists values, j. split; [exact Hin | split; [reflexivity |]].
    apply nth_error_nth'.
    pose proof (same_lengths_entry d (k, values) Hs Hin) as Hlen.
    cbn [snd] in Hlen. lia.
  - intros (values & j & Hin & Hj & Hnth).
    exists j. split.
    + apply in_seq.
      pose proof (same_lengths_entry d (rec_site_id rec, values) Hs Hin)
        as Hlen.
      cbn [snd] in Hlen.
      assert (j < List.length values)%nat
        by (apply nth_error_Some; rewrite Hnth; discriminate).
      lia.
    + apply in_map_iff. exists (rec_site_id rec, values).
      split; [| exact Hin]. cbn [fst snd].
      rewrite (nth_error_nth values j 0 Hnth), <- Hj.
      destruct rec; reflexivity.
Qed.

(** X11. When the reshape returns, the records of the table are exactly
    the entries of the value lists: a record for node [n] with label
    [j] and value [v] is in the table if and only if [v] is the entry
    at position [j] of the list gathered for [n]. *)
Theorem table_records_are_list_positions (d : dict (list R))
  (table : list ServiceabilityRecord) (rec : ServiceabilityRecord) :
  reshape d = Returned table ->
  (In rec table <->
   exists values j,
     In (rec_site_id rec, values) d
     /\ rec_scenario_index rec = Z.of_nat j
     /\ nth_error values j = Some (rec_serviceability rec)).
Proof.
  apply table_records_positions_aux.
Qed.

Lemma apply_orifice_areas_app (cfg : config) (pre post : dict R) :
  forall wn : WN,
    apply_orifice_areas cfg wn (pre ++ post)
    = match apply_orifice_areas cfg wn pre with
      | Returned wn1 => apply_orifice_areas cfg wn1 post
      | Raised e => Raised e
      end.
Proof.
  induction pre as [| [p a] pre IH]; intros wn; [reflexivity |].
  cbn [app apply_orifice_areas].
  destruct (split_pipe wn p _ _) as [wn1 | e]; [apply IH | reflexivity].
Qed.

(** X12. When [split_pipe] raises for a pipe of the plan, the pipes
    before it having been split, the exception leaves the scenario: the
    solver is not run and the scenario yields no serviceability. *)
Theorem split_failure_aborts_scenario (path : string) (cfg : config)
  (rows : list row) (g g' : G) (pre post : dict R) (p : string) (a : R)
  (wn1 : WN) (e : exn) :
  apply_damage_states (fresh_network path cfg) rows g
  = (Returned (pre ++ (p, a) :: post), g') ->
  apply_orifice_areas cfg (fresh_network path cfg) pre = Returned wn1 ->
  split_pipe wn1 p (p ++ "_A")%string ("Leak_" ++ p)%string = Raised e ->
  run_scenario path cfg rows g = (Raised e, g').
Proof.
  intros Hplan Hpre Hsplit. unfold run_scenario, bind, lift.
  rewrite Hplan, apply_orifice_areas_app, Hpre.
  cbn [apply_orifice_areas]. rewrite Hsplit. reflexivity.
Qed.

End Table.

(** ** The groups *)

Lemma insert_key_In (k k' : Z) (ks : list Z) :
  In k (insert_key k' ks) <-> k = k' \/ In k ks.
Proof.
  induction ks as [| h t IH]; cbn [insert_key In].
  - intuition.
  - destruct (k' <? h)%Z; [cbn [In]; intuition |].
    destruct (k' =? h)%Z eqn:E.
    + apply Z.eqb_eq in E. subst h. cbn [In]. intuition.
    + cbn [In]. rewrite IH. intuition.
Qed.

Lemma group_keys_In (k : Z) (df : list row) :
  In k (group_keys df) <-> exists r, In r df /\ scenario_index r = k.
Proof.
  unfold group_keys. induction df as [| r rest IH]; cbn [fold_right In].
  - split; [contradiction | intros [r [[] _]]].
  - rewrite insert_key_In, IH. split.
    + intros [Hk | [r' [Hin Hk]]].
      * exists r. split; [left; reflexivity | symmetry; exact Hk].
      * exists r'. split; [right; exact Hin | exact Hk].
    + intros [r' [[Hr | Hin] Hk]].
      * subst r'. left. symmetry. exact Hk.
      * right. exists r'. split; assumption.
Qed.

(** X13. [groupby] yields the scenarios in strictly ascending order of
    their keys; no group is empty, a group holds exactly the rows of the
    table that carry its key, and every row of the table is in the
    group of its key. *)
Theorem groupby_groups_by_key (df : list row) :
  StronglySorted Z.lt (map fst (groupby df))
  /\ (forall k rows,
        In (k, rows) (groupby df) ->
        rows <> []
        /\ forall r, In r rows <-> In r df /\ scenario_index r = k)
  /\ (forall r,
        In r df ->
        exists rows, In (scenario_index r, rows) (groupby df) /\ In r rows).
Proof.
  unfold groupby. split; [| split].
  - rewrite map_map. cbn [fst]. rewrite map_id. apply group_keys_sorted.
  - intros k rows Hin. apply in_map_iff in Hin as [k' [Heq Hk]].
    inversion Heq; subst k' rows. clear Heq.
    assert (Hmem : forall r,
               In r (filter (fun r => (scenario_index r =? k)%Z) df)
               <-> In r df /\ scenario_index r = k).
    { intros r. rewrite filter_In, Z.eqb_eq. reflexivity. }
    split; [| exact Hmem].
    apply group_keys_In in Hk as [r [Hr Hkey]].
    intros Hnil. pose proof (proj2 (Hmem r) (conj Hr Hkey)) as Hin.
    rewrite Hnil in Hin. destruct Hin.
  - intros r Hr.
    exists (filter (fun r' => (scenario_index r' =? scenario_index r)%Z) df).
    split.
    + apply in_map_iff. exists (scenario_index r). split; [reflexivity |].
      apply group_keys_In. exists r. split; [exact Hr | reflexivity].
    + apply filter_In. split; [exact Hr | apply Z.eqb_refl].
Qed.

Lemma filter_disjoint_app {A : Type} (p q : A -> bool) (l : list A) :
  (forall x, In x l -> p x = true -> q x = false) ->
  Permutation (filter p l ++ filter q l) (filter (fun x => p x || q x) l).
Proof.
  induction l as [| x t IH]; intros Hdis; [constructor |].
  assert (Ht : forall y, In y t -> p y = true -> q y = false)
    by (intros y Hy; apply Hdis; right; exact Hy).
  cbn [filter]. destruct (p x) eqn:Hp.
  - rewrite (Hdis x (or_introl eq_refl) Hp). cbn [orb app].
    apply perm_skip. apply IH. exact Ht.
  - cbn [orb]. destruct (q x).
    + apply Permutation_sym. apply Permutation_cons_app.
      apply Permutation_sym. apply IH. exact Ht.
    + apply IH. exact Ht.
Qed.

Lemma filter_all {A : Type} (f : A -> bool) (l : list A) :
  (forall x, In x l -> f x = true) -> filter f l = l.
Proof.
  induction l as [| x t IH]; intros Hall; [reflexivity |].
  cbn [filter]. rewrite (Hall x (or_introl eq_refl)).
  f_equal. apply IH. intros y Hy. apply Hall. right. exact Hy.
Qed.

Lemma groups_of_keys (df : list row) (ks : list Z) :
  NoDup ks ->
  Permutation
    (flat_map (fun k => filter (fun r => (scenario_index r =? k)%Z) df) ks)
    (filter (fun r => existsb (Z.eqb (scenario_index r)) ks) df).
Proof.
  induction ks as [| k t IH]; intros Hnd.
  - cbn [flat_map existsb]. induction df as [| r rest IHdf]; [constructor |].
    cbn [filter]. exact IHdf.
  - inversion Hnd as [| ? ? Hk Ht]; subst. cbn [flat_map existsb].
    eapply Permutation_trans.
    + apply Permutation_app_head. apply IH. exact Ht.
    + apply (filter_disjoint_app
               (fun r => (scenario_index r =? k)%Z)
               (fun r => existsb (Z.eqb (scenario_index r)) t)).
      intros r _ Hr. apply Z.eqb_eq in Hr.
      destruct (existsb (Z.eqb (scenario_index r)) t) eqn:E; [| reflexivity].
      apply existsb_exists in E as [k' [Hin Heq]].
      apply Z.eqb_eq in Heq. subst k'. rewrite Hr in Hin. contradiction.
Qed.

Lemma sorted_keys_NoDup (ks : list Z) : StronglySorted Z.lt ks -> NoDup ks.
Proof.
  induction 1 as [| k t Ht IH Hall]; constructor; [| exact IH].
  intros Hin. rewrite Forall_forall in Hall. apply Hall in Hin. lia.
Qed.

(** X14. The groups partition the scenario table: taken together, in
    their order, they hold every row of the table exactly once. *)
Theorem groupby_keeps_every_row (df : list row) :
  Permutation (flat_map snd (groupby df)) df.
Proof.
  unfold groupby. rewrite flat_map_concat_map, map_map. cbn [snd].
  rewrite <- flat_map_concat_map.
  eapply Permutation_trans.
  - apply groups_of_keys. apply sorted_keys_NoDup. apply group_keys_sorted.
  - rewrite filter_all; [apply Permutation_refl |].
    intros r Hr. apply existsb_exists. exists (scenario_index r).
    split; [| apply Z.eqb_refl].
    apply group_keys_In. exists r. split; [exact Hr | reflexivity].
Qed.

(** ** The population impacted *)

Lemma merge_left_unique (left : list ServiceabilityRecord)
  (right : list (string * R)) :
  NoDup (map fst right) ->
  map fst (merge_left_on_site_id left right) = left.
Proof.
  intros Hnd. unfold merge_left_on_site_id.
  induction left as [| l rest IH]; [reflexivity |].
  cbn [flat_map]. rewrite map_app, IH.
  assert (Hone : forall site,
             (List.length (filter (fun kv => String.eqb (fst kv) site) right)
              <= 1)%nat).
  { intros site. clear IH. induction right as [| [k p] t IHt]; [cbn; lia |].
    cbn [map fst] in Hnd. inversion Hnd as [| ? ? Hk Ht]; subst.
    cbn [filter fst]. destruct (String.eqb k site) eqn:E.
    - apply String.eqb_eq in E. subst site.
      replace (filter (fun kv => String.eqb (fst kv) k) t) with (@nil (string * R));
        [cbn; lia |].
      symmetry. clear IHt Ht Hnd. induction t as [| [k' p'] t' IHt'];
        [reflexivity |].
      cbn [filter fst]. cbn [map fst In] in Hk.
      destruct (String.eqb k' k) eqn:E'.
      + apply String.eqb_eq in E'. exfalso. apply Hk. left. exact E'.
      + apply IHt'. intros Hin. apply Hk. right. exact Hin.
    - apply IHt. exact Ht. }
  specialize (Hone (rec_site_id l)).
  destruct (filter _ right) as [| kv [| kv' more]];
    cbn [map fst app List.length] in *; [reflexivity | reflexivity | lia].
Qed.

(** X15. When the population table lists every site at most once, the
    population table returned has one record for each record of the
    serviceability table, in the same order and with the same
    [scenario_index] and [site_id]: no record is dropped or repeated,
    also for a site the population table does not list. *)
Theorem population_rows_kept (serviceability_df : list ServiceabilityRecord)
  (population_served_df : list (string * R)) :
  NoDup (map fst population_served_df) ->
  map (fun o => (pop_scenario_index o, pop_site_id o))
      (calculate_population_impacted serviceability_df population_served_df)
  = map (fun l => (rec_scenario_index l, rec_site_id l)) serviceability_df.
Proof.
  intros Hnd. unfold calculate_population_impacted.
  rewrite map_map. cbn [pop_scenario_index pop_site_id].
  rewrite <- (merge_left_unique serviceability_df population_served_df Hnd)
    at 2.
  rewrite map_map. reflexivity.
Qed.

Lemma merge_left_In (left : list ServiceabilityRecord)
  (right : list (string * R)) (l : ServiceabilityRecord) (p : option R) :
  In (l, p) (merge_left_on_site_id left right) <->
  In l left
  /\ match p with
     | Some served => In (rec_site_id l, served) right
     | None => ~ In (rec_site_id l) (map fst right)
     end.
Proof.
  unfold merge_left_on_site_id. rewrite in_flat_map.
  assert (Hf : forall site kv,
             In kv (filter (fun kv => String.eqb (fst kv) site) right)
             <-> In kv right /\ fst kv = site).
  { intros site kv. rewrite filter_In, String.eqb_eq. reflexivity. }
  split.
  - intros [l' [Hl' Hin]].
    destruct (filter (fun kv => String.eqb (fst kv) (rec_site_id l')) right)
      as [| kv more] eqn:E.
    + destruct Hin as [Heq | []]. inversion Heq; subst l' p.
      split; [exact Hl' |]. intros Hsite.
      apply in_map_iff in Hsite as [kv [Hk Hkv]].
      assert (Hin : In kv (@nil (string * R)))
        by (rewrite <- E; apply Hf; split; assumption).
      destruct Hin.
    + apply in_map_iff in Hin as [kv' [Heq Hkv']].
      inversion Heq; subst l' p. split; [exact Hl' |].
      rewrite <- E in Hkv'. apply Hf in Hkv' as [Hr Hk].
      rewrite <- Hk. destruct kv'. exact Hr.
  - intros [Hl Hp]. exists l. split; [exact Hl |].
    destruct p as [served |].
    + assert (Hin : In (rec_site_id l, served)
                      (filter (fun kv => String.eqb (fst kv) (rec_site_id l))
                              right))
        by (apply Hf; split; [exact Hp | reflexivity]).
      destruct (filter _ right) as [| kv more]; [destruct Hin |].
      apply in_map_iff. exists (rec_site_id l, served).
      split; [reflexivity | exact Hin].
    + destruct (filter (fun kv => String.eqb (fst kv) (rec_site_id l)) right)
        as [| kv more] eqn:E; [left; reflexivity |].
      exfalso. apply Hp. apply in_map_iff. exists kv.
      assert (Hin : In kv (kv :: more)) by (left; reflexivity).
      rewrite <- E in Hin. apply Hf in Hin as [Hr Hk].
      split; assumption.
Qed.

(** X16. A record of the population table comes from a record of the
    serviceability table: where the population table lists the site
    with a population [p], the population impacted is
    [(1 - serviceability) * p]; where it does not list the site, both
    the population served and the population impacted are missing. *)
Theorem population_impacted_value
  (serviceability_df : list ServiceabilityRecord)
  (population_served_df : list (string * R)) (o : PopulationRecord) :
  In o (calculate_population_impacted serviceability_df population_served_df)
  <->
  exists l,
    In l serviceability_df
    /\ pop_scenario_index o = rec_scenario_index l
    /\ pop_site_id o = rec_site_id l
    /\ match population_served o with
       | Some p =>
           In (rec_site_id l, p) population_served_df
           /\ population_impacted o = Some ((1 - rec_serviceability l) * p)
       | None =>
           ~ In (rec_site_id l) (map fst population_served_df)
           /\ population_impacted o = None
       end.
Proof.
  unfold calculate_population_impacted. rewrite in_map_iff. split.
  - intros [[l p] [Ho Hin]]. apply merge_left_In in Hin as [Hl Hp].
    subst o. cbn [fst snd pop_scenario_index pop_site_id population_served
                  population_impacted].
    exists l. split; [exact Hl | split; [reflexivity | split; [reflexivity |]]].
    destruct p; split; (exact Hp || reflexivity).
  - intros (l & Hl & Hidx & Hsite & Hp).
    exists (l, population_served o). split.
    + destruct o as [idx site served impacted].
      cbn [fst snd pop_scenario_index pop_site_id population_served
             population_impacted] in *.
      subst idx site. destruct served as [p |]; destruct Hp as [_ Himp];
        subst impacted; reflexivity.
    + apply merge_left_In. split; [exact Hl |].
      destruct (population_served o); destruct Hp as [Hp _]; exact Hp.
Qed.

(** X17. A serviceability between 0 and 1 gives a population impacted
    between 0 and the population served; a serviceability above 1,
    which the engine does not clamp, gives a negative population
    impacted for a site that serves anyone. *)
Theorem population_impacted_sign
  (serviceability_df : list ServiceabilityRecord)
  (population_served_df : list (string * R)) (l : ServiceabilityRecord)
  (p : R) :
  In l serviceability_df ->
  In (rec_site_id l, p) population_served_df ->
  0 < p ->
  In {| pop_scenario_index := rec_scenario_index l;
        pop_site_id := rec_site_id l;
        population_served := Some p;
        population_impacted := Some ((1 - rec_serviceability l) * p) |}
     (calculate_population_impacted serviceability_df population_served_df)
  /\ (0 <= rec_serviceability l <= 1 ->
      0 <= (1 - rec_serviceability l) * p <= p)
  /\ (1 < rec_serviceability l -> (1 - rec_serviceability l) * p < 0).
Proof.
  intros Hl Hp Hpos. split; [| split].
  - unfold calculate_population_impacted. apply in_map_iff.
    exists (l, Some p). split; [reflexivity |].
    apply merge_left_In. split; assumption.
  - intros Hs. nra.
  - intros Hs. nra.
Qed.

(** ** Where the values of the table come from *)

Section TableValues.

Context {G : Type} {rng : NpRandom G}.
Context {WN Results : Type} {wntr : Wntr WN Results}.

Lemma accumulate_node_keys_NoDup (acc : dict (list R)) (item : string * R) :
  NoDup (map fst acc) -> NoDup (map fst (accumulate_node acc item)).
Proof.
  intros Hnd. destruct item as [node value]. unfold accumulate_node.
  destruct (dict_get acc node); apply dict_set_keys_NoDup; exact Hnd.
Qed.

Lemma accumulate_keys_NoDup (serviceability : dict R) :
  forall acc : dict (list R),
    NoDup (map fst acc) -> NoDup (map fst (accumulate acc serviceability)).
Proof.
  unfold accumulate.
  induction serviceability as [| item t IH]; intros acc Hnd; [exact Hnd |].
  cbn [fold_left]. apply IH. apply accumulate_node_keys_NoDup. exact Hnd.
Qed.

Lemma dict_In_get {V} (d : dict V) (k : string) (v : V) :
  NoDup (map fst d) -> In (k, v) d -> dict_get d k = Some v.
Proof.
  induction d as [| [k' v'] t IH]; intros Hnd Hin; [destruct Hin |].
  cbn [map fst] in Hnd. inversion Hnd as [| ? ? Hk Ht]; subst.
  cbn [dict_get]. destruct Hin as [Heq | Hin].
  - inversion Heq; subst. rewrite String.eqb_refl. reflexivity.
  - destruct (String.eqb k' k) eqn:E.
    + apply String.eqb_eq in E. subst k'. exfalso. apply Hk.
      apply in_map_iff. exists (k, v). split; [reflexivity | exact Hin].
    + apply IH; assumption.
Qed.

Lemma scenario_loop_values (path : string) (cfg : config)
  (all : list (Z * list row)) (groups : list (Z * list row)) :
  forall (acc d : dict (list R)) (g g' : G),
    (forall kr, In kr groups -> In kr all) ->
    scenario_loop path cfg acc groups g = (Returned d, g') ->
    NoDup (map fst acc) ->
    (forall node values v,
        dict_get acc node = Some values -> In v values ->
        recorded_by (G := G) path cfg all node v) ->
    NoDup (map fst d)
    /\ forall node values v,
        dict_get d node = Some values -> In v values ->
        recorded_by (G := G) path cfg all node v.
Proof.
  induction groups as [| [k rows] rest IH];
    intros acc d g g' Hsub Hloop Hnd Hacc.
  - cbn [scenario_loop] in Hloop. unfold ret in Hloop.
    inversion Hloop; subst. split; assumption.
  - cbn [scenario_loop] in Hloop. unfold bind in Hloop.
    destruct (run_scenario path cfg rows g) as [[serv | e] g1] eqn:Hrun;
      [| discriminate].
    destruct (run_scenario_inversion path cfg rows g g1 serv Hrun)
      as (plan & wn' & results & Hplan & Hmut & Hsim & Hserv).
    subst serv.
    apply (IH (accumulate acc (calculate_serviceability wn' results))
              d g1 g'); [| exact Hloop | |].
    + intros kr Hin. apply Hsub. right. exact Hin.
    + apply accumulate_keys_NoDup. exact Hnd.
    + intros node values v Hget Hv.
      rewrite (accumulate_get _ acc node
                 (calculate_serviceability_keys_NoDup wn' results)) in Hget.
      destruct (dict_get (calculate_serviceability wn' results) node)
        as [value |] eqn:Hnode.
      * inversion Hget; subst values. unfold appended in Hv.
        assert (Hnew : recorded_by (G := G) path cfg all node value).
        { exists k, rows, g, g1, plan, wn', results.
          split; [apply Hsub; left; reflexivity |].
          split; [exact Hplan | split; [exact Hmut | split; [exact Hsim |]]].
          apply calculate_serviceability_ratio. apply dict_get_In.
          exact Hnode. }
        destruct (dict_get acc node) as [old |] eqn:Hold.
        -- apply in_app_or in Hv as [Hv | [Hv | []]].
           ++ apply (Hacc node old v Hold Hv).
           ++ subst v. exact Hnew.
        -- destruct Hv as [Hv | []]. subst v. exact Hnew.
      * apply (Hacc node values v Hget Hv).
Qed.

(** X18. Every record of a returned table was recorded by a scenario of
    the input: its node is a junction of that scenario's snapshot whose
    mean expected demand there is not zero, and its value is the ratio
    of the mean demand the solver returned for that snapshot to that
    mean expected demand. *)
Theorem table_records_come_from_scenarios (self : HydraulicSimulator)
  (cfg : config) (g g' : G) (table : list ServiceabilityRecord)
  (rec : ServiceabilityRecord) :
  run_hydraulic_simulation self cfg g = (Returned table, g') ->
  In rec table ->
  exists k rows g1 g2 plan wn' results,
    In (k, rows) (groupby (scenarios_df self))
    /\ apply_damage_states (fresh_network (epanet_file_path self) cfg) rows g1
       = (Returned plan, g2)
    /\ apply_orifice_areas cfg (fresh_network (epanet_file_path self) cfg) plan
       = Returned wn'
    /\ run_sim wn' = Returned results
    /\ name_in (rec_site_id rec) (junction_name_list wn') = true
    /\ mean (expected_demand wn' (rec_site_id rec)) <> 0
    /\ rec_serviceability rec
       = mean (node_demand results (rec_site_id rec))
         / mean (expected_demand wn' (rec_site_id rec)).
Proof.
  intros Hrun Hin.
  destruct (batch_inversion self cfg g g' table Hrun) as (d & Hloop & Hre).
  destruct (scenario_loop_values (epanet_file_path self) cfg
              (groupby (scenarios_df self)) (groupby (scenarios_df self))
              [] d g g' (fun kr Hkr => Hkr) Hloop (NoDup_nil _))
    as [Hnd Hvalues].
  { intros node values v Hget. discriminate. }
  pose proof Hin as Hin'.
  apply (table_records_positions_aux d table rec Hre) in Hin'.
  destruct Hin' as (values & j & Hentry & _ & Hnth).
  apply (dict_In_get d _ _ Hnd) in Hentry.
  apply nth_error_In in Hnth.
  destruct (Hvalues _ values _ Hentry Hnth)
    as (k & rows & g1 & g2 & plan & wn' & results & Hk & Hplan & Hmut & Hsim
        & Hj & Hnz & Hv).
  exists k, rows, g1, g2, plan, wn', results.
  repeat split; assumption.
Qed.

End TableValues.
(** * The whole run *)

(** ** The nodes a scenario records *)

Section Recorded.

Context {G : Type} {rng : NpRandom G}.
Context {WN Results : Type} {wntr : Wntr WN Results}.

Lemma calculate_serviceability_get (wn : WN) (results : Results)
  (node : string) (v : R) :
  dict_get (calculate_serviceability wn results) node = Some v <->
  eligible wn node
  /\ v = mean (node_demand results node) / mean (expected_demand wn node).
Proof.
  destruct (serviceability_fold_get wn results (node_name_list wn) [] []
              (NoDup_nil _)) as [_ Hget].
  { intros n w. cbn [dict_get In]. split; [discriminate | intros [[] _]]. }
  specialize (Hget node v). cbn [app] in Hget.
  unfold calculate_serviceability, eligible.
  split.
  - intros Hv. apply Hget in Hv. destruct Hv as (Hin & Hj & Hnz & Hv).
    repeat split; assumption.
  - intros ((Hin & Hj & Hnz) & Hv). apply Hget.
    split; [exact Hin |]. split; [exact Hj |]. split; [exact Hnz | exact Hv].
Qed.

Lemma dict_key_get {V} (d : dict V) (k : string) :
  In k (map fst d) <-> exists v, dict_get d k = Some v.
Proof.
  destruct (dict_get d k) as [v |] eqn:Hget.
  - split; [intros _; exists v; reflexivity |].
    intros _. apply dict_get_In in Hget.
    apply in_map_iff. exists (k, v). split; [reflexivity | exact Hget].
  - apply dict_get_None in Hget. split; [contradiction |].
    intros [v Hv]. discriminate.
Qed.

Lemma accumulate_values_length (acc : dict (list R)) (s : dict R)
  (node : string) :
  NoDup (map fst s) ->
  List.length (values_of (accumulate acc s) node)
  = (List.length (values_of acc node)
     + (if name_in node (map fst s) then 1 else 0))%nat.
Proof.
  intros Hnd. unfold values_of. rewrite (accumulate_get s acc node Hnd).
  destruct (dict_get s node) as [value |] eqn:Hs.
  - assert (Hin : name_in node (map fst s) = true).
    { apply name_in_In. apply dict_key_get. exists value. exact Hs. }
    rewrite Hin. unfold appended.
    destruct (dict_get acc node);
      [rewrite length_app |]; cbn [List.length]; lia.
  - apply dict_get_None in Hs. apply name_in_not_In in Hs. rewrite Hs. lia.
Qed.

Lemma accumulate_all_length (servs : list (dict R)) (node : string) :
  Forall (fun s => NoDup (map fst s)) servs ->
  forall acc : dict (list R),
    List.length (values_of (fold_left accumulate servs acc) node)
    = (List.length (values_of acc node) + times_recorded servs node)%nat.
Proof.
  intros Hall. induction Hall as [| s rest Hs Hrest IH]; intros acc.
  - unfold times_recorded. cbn [fold_left filter List.length]. lia.
  - cbn [fold_left]. rewrite IH, (accumulate_values_length acc s node Hs).
    unfold times_recorded. cbn [filter].
    destruct (name_in node (map fst s)); cbn [List.length]; lia.
Qed.

(** Two nodes recorded by different numbers of scenarios make the
    reshape raise. *)
Lemma reshape_unequal_raises (servs : list (dict R)) (a b : string) :
  Forall (fun s => NoDup (map fst s)) servs ->
  (0 < times_recorded servs b < times_recorded servs a)%nat ->
  reshape (accumulate_all servs) = Raised ValueError.
Proof.
  intros Hall [Hb Hab]. unfold accumulate_all.
  pose proof (accumulate_all_length servs a Hall []) as Ha'.
  pose proof (accumulate_all_length servs b Hall []) as Hb'.
  unfold values_of in Ha', Hb'. cbn [dict_get List.length Nat.add] in Ha', Hb'.
  destruct (dict_get (fold_left accumulate servs []) a) as [va |] eqn:Ea;
    [| cbn [List.length] in Ha'; lia].
  destruct (dict_get (fold_left accumulate servs []) b) as [vb |] eqn:Eb;
    [| cbn [List.length] in Hb'; lia].
  apply reshape_raised. apply same_lengths_false.
  exists (a, va), (b, vb).
  split; [apply dict_get_In; exact Ea |].
  split; [apply dict_get_In; exact Eb |].
  cbn [snd]. lia.
Qed.

End Recorded.

(** ** What wntr leaves alone *)

Section Frame.

Context {G : Type} {rng : NpRandom G}.
Context {WN Results : Type} {wntr : Wntr WN Results}.
Context {frame : WntrFrame wntr}.

Lemma split_and_leak_frame (cfg : config) (wn wn1 : WN) (p : string) (a : R)
  (node : string) :
  split_pipe wn p (p ++ "_A")%string ("Leak_" ++ p)%string = Returned wn1 ->
  let wn2 := add_leak wn1 ("Leak_" ++ p)%string a
               (leak_start_time cfg) (leak_end_time cfg) in
  (eligible wn2 node <-> eligible wn node)
  /\ (mean (expected_demand wn2 node) <> 0 ->
      expected_demand wn2 node = expected_demand wn node).
Proof.
  intros Hsplit wn2. unfold eligible, wn2.
  rewrite add_leak_nodes, add_leak_junctions, add_leak_expected_demand.
  rewrite !name_in_In.
  rewrite (split_pipe_nodes _ _ _ _ _ node Hsplit).
  rewrite (split_pipe_junctions _ _ _ _ _ node Hsplit).
  destruct (string_dec node ("Leak_" ++ p)%string) as [Heq | Hne].
  - subst node.
    pose proof (split_pipe_no_demand _ _ _ _ _ Hsplit) as Hzero.
    pose proof (split_pipe_name_free _ _ _ _ _ Hsplit) as Hfree.
    split; [| intros Hnz; contradiction].
    split.
    + intros (_ & _ & Hnz). contradiction.
    + intros (Hin & _). contradiction.
  - rewrite (split_pipe_expected_demand _ _ _ _ _ node Hsplit Hne).
    split; [| reflexivity].
    split.
    + intros ([Hn | Hn] & [Hj | Hj] & Hnz); try contradiction.
      repeat split; assumption.
    + intros (Hn & Hj & Hnz).
      split; [left; exact Hn | split; [left; exact Hj | exact Hnz]].
Qed.

(** The loop over the damage plan changes neither the eligible nodes nor
    their expected demand. *)
Lemma apply_orifice_areas_frame (cfg : config) (plan : dict R) :
  forall (wn wn' : WN) (node : string),
    apply_orifice_areas cfg wn plan = Returned wn' ->
    (eligible wn' node <-> eligible wn node)
    /\ (mean (expected_demand wn' node) <> 0 ->
        expected_demand wn' node = expected_demand wn node).
Proof.
  induction plan as [| [p a] rest IH]; intros wn wn' node Hmut.
  - cbn [apply_orifice_areas] in Hmut. inversion Hmut; subst.
    split; [reflexivity | reflexivity].
  - cbn [apply_orifice_areas] in Hmut.
    destruct (split_pipe wn p _ _) as [wn1 | e] eqn:Hsplit; [| discriminate].
    destruct (IH _ wn' node Hmut) as [Hel Hed].
    destruct (split_and_leak_frame cfg wn wn1 p a node Hsplit) as [Hel1 Hed1].
    cbv zeta in Hel1, Hed1.
    split.
    + rewrite Hel. exact Hel1.
    + intros Hnz. rewrite (Hed Hnz). apply Hed1.
      rewrite <- (Hed Hnz). exact Hnz.
Qed.

(** A scenario records the eligible junctions of the freshly loaded
    network, whatever its damage. *)
Lemma run_scenario_records_eligible (path : string) (cfg : config)
  (rows : list row) (g g' : G) (serviceability : dict R) (node : string) :
  run_scenario path cfg rows g = (Returned serviceability, g') ->
  (In node (map fst serviceability)
   <-> eligible (fresh_network path cfg) node).
Proof.
  intros Hrun.
  destruct (run_scenario_inversion path cfg rows g g' _ Hrun)
    as (plan & wn' & results & _ & Hmut & _ & Hserv).
  subst serviceability. rewrite dict_key_get.
  destruct (apply_orifice_areas_frame cfg plan _ wn' node Hmut) as [Hel _].
  rewrite <- Hel. split.
  - intros [v Hv]. apply calculate_serviceability_get in Hv. apply Hv.
  - intros Hnode. eexists. apply calculate_serviceability_get.
    split; [exact Hnode | reflexivity].
Qed.

(** ** C3: the serviceability ratio *)

(** C3. Every value a scenario records for a node is the mean of the
    node's demand series, as solved on the scenario's snapshot, divided
    by the mean of the node's expected demand on the freshly loaded,
    undamaged network: the node is a junction of that network whose
    mean expected demand is not zero. The source asks the metric for
    the expected demand of the damaged snapshot; splitting pipes and
    adding leaks leaves it what it is on the undamaged network. The
    ratio is recorded as it is, without clamping. *)
Theorem serviceability_is_unclamped_ratio (path : string) (cfg : config)
  (rows : list row) (g g' : G) (serviceability : dict R)
  (node : string) (v : R) :
  run_scenario path cfg rows g = (Returned serviceability, g') ->
  In (node, v) serviceability ->
  exists plan wn' results,
    apply_damage_states (fresh_network path cfg) rows g = (Returned plan, g')
    /\ apply_orifice_areas cfg (fresh_network path cfg) plan = Returned wn'
    /\ run_sim wn' = Returned results
    /\ name_in node (junction_name_list (fresh_network path cfg)) = true
    /\ mean (expected_demand (fresh_network path cfg) node) <> 0
    /\ v = mean (node_demand results node)
           / mean (expected_demand (fresh_network path cfg) node).
Proof.
  intros Hrun Hin.
  destruct (run_scenario_inversion path cfg rows g g' serviceability Hrun)
    as (plan & wn' & results & Hplan & Hmut & Hsim & Hserv).
  subst serviceability.
  destruct (calculate_serviceability_ratio wn' results node v Hin)
    as (Hj & Hnz & Hv).
  destruct (apply_orifice_areas_frame cfg plan _ wn' node Hmut) as [Hel Hed].
  assert (Hnode : eligible wn' node).
  { assert (Hget : dict_get (calculate_serviceability wn' results) node
                   = Some v)
      by (apply dict_In_get;
          [apply calculate_serviceability_keys_NoDup | exact Hin]).
    apply calculate_serviceability_get in Hget. apply Hget. }
  apply Hel in Hnode. destruct Hnode as (_ & Hj0 & Hnz0).
  exists plan, wn', results.
  split; [exact Hplan | split; [exact Hmut | split; [exact Hsim |]]].
  split; [exact Hj0 | split; [exact Hnz0 |]].
  rewrite <- (Hed Hnz). exact Hv.
Qed.

(** ** C10: one value per scenario *)

Lemma scenario_loop_common (path : string) (cfg : config)
  (groups : list (Z * list row)) :
  forall (acc d : dict (list R)) (g g' : G) (m : nat),
    scenario_loop path cfg acc groups g = (Returned d, g') ->
    NoDup (map fst acc) ->
    (forall node values,
        dict_get acc node = Some values ->
        eligible (fresh_network path cfg) node /\ List.length values = m) ->
    ((0 < m)%nat ->
     forall node, eligible (fresh_network path cfg) node ->
                  dict_get acc node <> None) ->
    NoDup (map fst d)
    /\ forall node values,
        dict_get d node = Some values ->
        List.length values = (m + List.length groups)%nat.
Proof.
  induction groups as [| [k rows] rest IH];
    intros acc d g g' m Hloop Hnd Hacc Hall.
  - cbn [scenario_loop] in Hloop. unfold ret in Hloop.
    inversion Hloop; subst. split; [exact Hnd |].
    intros node values Hget. apply Hacc in Hget. cbn [List.length]. lia.
  - cbn [scenario_loop] in Hloop. unfold bind in Hloop.
    destruct (run_scenario path cfg rows g) as [[serv | e] g1] eqn:Hrun;
      [| discriminate].
    pose proof (fun node =>
                  run_scenario_records_eligible path cfg rows g g1 serv node
                    Hrun) as Hkeys.
    destruct (run_scenario_inversion path cfg rows g g1 serv Hrun)
      as (plan & wn' & results & _ & _ & _ & Hserv).
    assert (Hget : forall node,
               dict_get (accumulate acc serv) node
               = match dict_get serv node with
                 | Some value => Some (appended (dict_get acc node) value)
                 | None => dict_get acc node
                 end).
    { intros node. apply accumulate_get. subst serv.
      apply calculate_serviceability_keys_NoDup. }
    cbn [List.length].
    replace (m + S (List.length rest))%nat
      with (S m + List.length rest)%nat by lia.
    apply (IH (accumulate acc serv) d g1 g' (S m) Hloop).
    + apply accumulate_keys_NoDup. exact Hnd.
    + intros node values Hnode. rewrite Hget in Hnode.
      destruct (dict_get serv node) as [value |] eqn:Hserv_node.
      * assert (Hel : eligible (fresh_network path cfg) node).
        { apply Hkeys. apply dict_key_get. exists value. exact Hserv_node. }
        split; [exact Hel |].
        inversion Hnode; subst values. unfold appended.
        destruct (dict_get acc node) as [old |] eqn:Hold.
        -- destruct (Hacc node old Hold) as [_ Hlen].
           rewrite length_app. cbn [List.length]. lia.
        -- destruct m as [| m']; [reflexivity |].
           exfalso. apply (Hall ltac:(lia) node Hel). exact Hold.
      * destruct (Hacc node values Hnode) as [Hel _].
        apply Hkeys in Hel. apply dict_key_get in Hel as [value Hvalue].
        congruence.
    + intros _ node Hel. rewrite Hget.
      apply Hkeys in Hel. apply dict_key_get in Hel as [value Hvalue].
      rewrite Hvalue. discriminate.
Qed.


End Frame.

(** ** C4: a simulation that does not converge *)

Section Convergence.

Context {G : Type} {rng : NpRandom G}.
Context {WN Results : Type} {wntr : Wntr WN Results}.

(** C4 (amended). A simulation that does not converge raises nothing,
    and the engine does not read the status of the results. The
    scenario is reduced like every other one: a value is appended for
    every eligible node of its snapshot, computed from the results the
    solver handed back, and the batch call goes on with the remaining
    scenarios and the reshape. *)
Theorem non_convergence_goes_unnoticed (self : HydraulicSimulator)
  (cfg : config) (pre post : list (Z * list row)) (k : Z) (rows : list row)
  (acc : dict (list R)) (g0 g g1 : G) (plan : dict R) (wn' : WN)
  (results : Results) :
  let path := epanet_file_path self in
  let serviceability := calculate_serviceability wn' results in
  groupby (scenarios_df self) = pre ++ (k, rows) :: post ->
  scenario_loop path cfg [] pre g0 = (Returned acc, g) ->
  apply_damage_states (fresh_network path cfg) rows g = (Returned plan, g1) ->
  apply_orifice_areas cfg (fresh_network path cfg) plan = Returned wn' ->
  run_sim wn' = Returned results ->
  converged results = false ->
  run_scenario path cfg rows g = (Returned serviceability, g1)
  /\ (forall node,
         eligible wn' node ->
         dict_get (accumulate acc serviceability) node
         = Some (appended (dict_get acc node)
                   (mean (node_demand results node)
                    / mean (expected_demand wn' node))))
  /\ run_hydraulic_simulation self cfg g0
     = (d <- scenario_loop path cfg (accumulate acc serviceability) post ;;
        lift (reshape d)) g1.
Proof.
  intros path serviceability Hgroups Hpre Hplan Hmut Hsim Hstatus.
  pose proof (run_scenario_returned path cfg rows g g1 plan wn' results
                Hplan Hmut Hsim) as Hrun.
  split; [exact Hrun | split].
  - intros node Hnode. unfold serviceability.
    rewrite accumulate_get by apply calculate_serviceability_keys_NoDup.
    rewrite (proj2 (calculate_serviceability_get wn' results node _)
               (conj Hnode eq_refl)).
    reflexivity.
  - unfold run_hydraulic_simulation. fold path. rewrite Hgroups.
    unfold bind at 1. rewrite scenario_loop_app. unfold bind at 1.
    rewrite Hpre.
    rewrite (scenario_loop_returned path cfg acc k rows post g g1 _ Hrun).
    reflexivity.
Qed.

End Convergence.

(** ** C5: one generator for all the scenarios *)

Section Generator.

Context {G : Type} {rng : NpRandom G}.
Context {WN Results : Type} {wntr : Wntr WN Results}.

Lemma run_scenario_draws (path : string) (cfg : config) (rows : list row)
  (g g' : G) (serviceability : dict R) :
  run_scenario path cfg rows g = (Returned serviceability, g') ->
  g' = draws_of_rows (fresh_network path cfg) rows g.
Proof.
  intros Hrun.
  destruct (run_scenario_inversion path cfg rows g g' _ Hrun)
    as (plan & wn' & results & Hplan & _).
  apply (damage_rows_draws _ rows [] plan g g' Hplan).
Qed.

Lemma scenario_loop_draws (path : string) (cfg : config)
  (groups : list (Z * list row)) :
  forall (acc d : dict (list R)) (g g' : G),
    scenario_loop path cfg acc groups g = (Returned d, g') ->
    g' = draws_of_groups (fresh_network path cfg) groups g.
Proof.
  induction groups as [| [k rows] rest IH]; intros acc d g g' Hloop.
  - cbn [scenario_loop] in Hloop. unfold ret in Hloop.
    inversion Hloop; subst. reflexivity.
  - cbn [scenario_loop] in Hloop. unfold bind in Hloop.
    destruct (run_scenario path cfg rows g) as [[serv | e] g1] eqn:Hrun;
      [| discriminate].
    unfold draws_of_groups. cbn [fold_left snd].
    rewrite <- (run_scenario_draws path cfg rows g g1 serv Hrun).
    apply (IH _ d g1 g' Hloop).
Qed.

Lemma scenario_loop_split (path : string) (cfg : config)
  (pre post : list (Z * list row)) (acc d : dict (list R)) (g g' : G) :
  scenario_loop path cfg acc (pre ++ post) g = (Returned d, g') ->
  exists acc1 g1,
    scenario_loop path cfg acc pre g = (Returned acc1, g1)
    /\ scenario_loop path cfg acc1 post g1 = (Returned d, g').
Proof.
  rewrite scenario_loop_app. unfold bind.
  destruct (scenario_loop path cfg acc pre g) as [[acc1 | e] g1];
    [| discriminate].
  intros Hpost. exists acc1, g1. split; [reflexivity | exact Hpost].
Qed.

(** C5 (amended). Nothing is seeded: the scenarios run one after the
    other, in ascending order of their keys, on the one generator. A
    scenario starts from the state in which the scenarios with smaller
    keys left the generator and advances it by one Poisson and one
    uniform draw for each of its rows that names a pipe; the batch
    ends in the state all the scenarios, in that order, leave. The
    draws of a scenario are thus a function of the initial state and of
    the rows of the scenarios before it. *)
Theorem scenarios_share_the_generator (self : HydraulicSimulator)
  (cfg : config) (g g' : G) (d : dict (list R)) :
  let path := epanet_file_path self in
  let fresh := fresh_network path cfg in
  scenario_loop path cfg [] (groupby (scenarios_df self)) g
  = (Returned d, g') ->
  Sorted.StronglySorted Z.lt (map fst (groupby (scenarios_df self)))
  /\ (forall pre k rows post,
         groupby (scenarios_df self) = pre ++ (k, rows) :: post ->
         exists acc serviceability,
           scenario_loop path cfg [] pre g
           = (Returned acc, draws_of_groups fresh pre g)
           /\ run_scenario path cfg rows (draws_of_groups fresh pre g)
              = (Returned serviceability,
                 draws_of_rows fresh rows (draws_of_groups fresh pre g)))
  /\ g' = draws_of_groups fresh (groupby (scenarios_df self)) g.
Proof.
  intros path fresh Hloop. split; [| split].
  - unfold groupby. rewrite map_map. cbn [fst]. rewrite map_id.
    apply group_keys_sorted.
  - intros pre k rows post Hgroups. rewrite Hgroups in Hloop.
    destruct (scenario_loop_split path cfg pre _ [] d g g' Hloop)
      as (acc & g1 & Hpre & Hpost).
    pose proof (scenario_loop_draws path cfg pre [] acc g g1 Hpre) as Hg1.
    fold fresh in Hg1. subst g1.
    cbn [scenario_loop] in Hpost. unfold bind in Hpost.
    destruct (run_scenario path cfg rows (draws_of_groups fresh pre g))
      as [[serv | e] g2] eqn:Hrun; [| discriminate].
    pose proof (run_scenario_draws path cfg rows _ g2 serv Hrun) as Hg2.
    fold fresh in Hg2. subst g2.
    exists acc, serv. split; [exact Hpre | reflexivity].
  - apply (scenario_loop_draws path cfg _ [] d g g' Hloop).
Qed.

End Generator.

(** ** The length of a pipe and the failure probability *)

Section Probability.

Context {G : Type} {rng : NpRandom G}.
Context {WN Results : Type} {wntr : Wntr WN Results}.

(** The length the specification calls metres is the one wntr holds;
    the source works with that length times 0.3048, for every pipe. *)
Lemma length_m_of_spec_held (wn : WN) (p : string) :
  length_m_of_spec wn p = link_length wn p.
Proof.
  unfold length_m_of_spec, length_ft. field. lra.
Qed.

Lemma link_length_m_shortened (wn : WN) (p : string) :
  link_length_m wn p = length_m_of_spec wn p * 0.3048.
Proof.
  rewrite length_m_of_spec_held. reflexivity.
Qed.

(** X4. At a rate that is not negative the failure probability lies in
    the unit interval. *)
Theorem pf_is_a_probability (wn : WN) (r : row) :
  0 <= repair_rate r * link_length_m wn (site_id r) ->
  0 <= pf wn r <= 1.
Proof.
  intros Hrate. rewrite pf_formula.
  set (lam := repair_rate r * link_length_m wn (site_id r)) in *.
  pose proof (exp_pos (- lam)) as Hpos.
  assert (Hle : exp (- lam) <= 1).
  { destruct Hrate as [Hlt | Heq].
    - left. rewrite <- exp_0. apply exp_increasing. lra.
    - right. rewrite <- Heq, Ropp_0. apply exp_0. }
  lra.
Qed.

End Probability.

(** * Concrete runs *)

(** Facts about the one-pipe network. *)
Module ToyFacts.

#[local] Existing Instance Toy.tape_random.

Lemma undamaged_serviceability (f : R) (metric : Toy.net -> string -> list R) :
  metric (Toy.net_set_options Toy.net_file Toy.cfg0) "J1"%string = [1] ->
  @calculate_serviceability _ (dict (list R))
    (Toy.wntr_with (Toy.solve_fraction f) metric)
    (Toy.net_set_options Toy.net_file Toy.cfg0) [("J1"%string, [f * 1])]
  = [("J1"%string, f)].
Proof.
  intros Hmetric. unfold calculate_serviceability.
  change (node_name_list _) with ["J1"%string; "R1"%string].
  cbn [fold_left].
  rewrite (serviceability_node_not_junction _ _ _ "R1") by reflexivity.
  rewrite serviceability_node_emitted.
  - change (expected_demand _ _)
      with (metric (Toy.net_set_options Toy.net_file Toy.cfg0) "J1"%string).
    change (node_demand _ _) with [f * 1].
    rewrite Hmetric, !mean_singleton. cbn [dict_set]. f_equal. f_equal. field.
  - reflexivity.
  - change (expected_demand _ _)
      with (metric (Toy.net_set_options Toy.net_file Toy.cfg0) "J1"%string).
    rewrite Hmetric, mean_singleton. lra.
Qed.

Lemma baseline_serviceability (f : R) :
  @calculate_serviceability _ (dict (list R))
    (Toy.wntr_with (Toy.solve_fraction f) Toy.metric_base)
    (Toy.net_set_options Toy.net_file Toy.cfg0) [("J1"%string, [f * 1])]
  = [("J1"%string, f)].
Proof.
  apply undamaged_serviceability. reflexivity.
Qed.

(** The pipe row of the examples, whatever the solver and the metric. *)
Section AnyCollaborators.

Variable solve : Toy.net -> outcome (dict (list R)).
Variable metric : Toy.net -> string -> list R.

Let W : Wntr Toy.net (dict (list R)) := Toy.wntr_with solve metric.
Let fresh : Toy.net := Toy.net_set_options Toy.net_file Toy.cfg0.

Lemma rate_of_P1 (k : Z) (pgv : R) :
  repair_rate (Toy.row_of k "P1" pgv)
  * @link_length_m _ _ W fresh (site_id (Toy.row_of k "P1" pgv))
  = 0.000241 * pgv / 100 * 304.8.
Proof.
  unfold repair_rate, link_length_m. cbn. lra.
Qed.

(** Without shaking the row consumes its two draws and plans nothing. *)
Lemma quiet_plan (k : Z) (g : Toy.tape) :
  @apply_damage_states _ Toy.tape_random _ _ W fresh
    [Toy.row_of k "P1" 0] g
  = (Returned [], tl (tl g)).
Proof.
  unfold apply_damage_states. cbn [damage_rows]. unfold bind.
  rewrite damage_row_pipe;
    [| reflexivity | rewrite rate_of_P1; lra].
  rewrite pf_zero by (rewrite rate_of_P1; lra).
  cbn [uniform_draw poisson_draw Toy.tape_random fst snd].
  pose proof (@uniform_draw_range _ Toy.tape_random (tl g)) as [Hu _].
  cbn [uniform_draw Toy.tape_random fst] in Hu.
  destruct (Rlt_dec _ 0) as [Hlt | _]; [lra | reflexivity].
Qed.

(** Under [PGV > 0], one damage drawn and a uniform sample of 0 put the
    pipe in the plan with an orifice area of 0. *)
Lemma failed_plan (k : Z) (pgv : R) (rest : Toy.tape) :
  0 < pgv ->
  @apply_damage_states _ Toy.tape_random _ _ W fresh
    [Toy.row_of k "P1" pgv] (1%nat :: 0%nat :: rest)
  = (Returned [("P1"%string, 0)], rest).
Proof.
  intros Hpgv.
  rewrite single_failed_row.
  - cbn [uniform_draw poisson_draw Toy.tape_random fst snd tl hd].
    rewrite orifice_area_small_draw by apply le_n. reflexivity.
  - reflexivity.
  - rewrite rate_of_P1. nra.
  - change (fst (uniform_draw _)) with 0.
    apply pf_pos. rewrite rate_of_P1. nra.
Qed.

Lemma failed_mutation :
  @apply_orifice_areas _ _ W Toy.cfg0 fresh [("P1"%string, 0)]
  = Returned Toy.net_leaky.
Proof. reflexivity. Qed.

End AnyCollaborators.

(** The toy wntr leaves alone what wntr leaves alone. *)
Lemma net_split_returned (wn wn' : Toy.net) (p np nj : string) :
  Toy.net_split wn p np nj = Returned wn' ->
  name_in nj (map fst (Toy.net_junctions wn) ++ Toy.net_reservoirs wn) = false
  /\ Toy.net_junctions wn' = dict_set (Toy.net_junctions wn) nj 0
  /\ Toy.net_reservoirs wn' = Toy.net_reservoirs wn.
Proof.
  unfold Toy.net_split.
  destruct (name_in np (map fst (Toy.net_pipes wn))
            || name_in nj (map fst (Toy.net_junctions wn)
                           ++ Toy.net_reservoirs wn)) eqn:E; [discriminate |].
  apply orb_false_iff in E as [_ E].
  destruct (Toy.net_pipe wn p) as [len diam].
  intros Hret. inversion Hret; subst wn'. cbn [Toy.net_junctions Toy.net_reservoirs].
  split; [exact E | split; reflexivity].
Qed.

Lemma net_split_names (wn wn' : Toy.net) (p np nj node : string) :
  Toy.net_split wn p np nj = Returned wn' ->
  (In node (map fst (Toy.net_junctions wn'))
   <-> In node (map fst (Toy.net_junctions wn)) \/ node = nj).
Proof.
  intros Hsplit.
  destruct (net_split_returned wn wn' p np nj Hsplit) as (Hfree & Hj & _).
  rewrite Hj, dict_set_keys.
  apply name_in_not_In in Hfree.
  destruct (name_in nj (map fst (Toy.net_junctions wn))) eqn:E.
  - apply name_in_In in E. exfalso. apply Hfree. apply in_or_app. left. exact E.
  - rewrite in_app_iff. cbn [In]. split.
    + intros [Hin | [Heq | []]]; [left; exact Hin | right; symmetry; exact Heq].
    + intros [Hin | Heq]; [left; exact Hin | right; left; symmetry; exact Heq].
Qed.

Lemma toy_frame (file : Toy.net) (solve : Toy.net -> outcome (dict (list R))) :
  WntrFrame (Toy.wntr_on file solve Toy.metric_base).
Proof.
  constructor.
  - intros wn p np nj wn' Hsplit.
    change (Toy.net_split wn p np nj = Returned wn') in Hsplit.
    destruct (net_split_returned wn wn' p np nj Hsplit) as (Hfree & _).
    apply name_in_not_In. exact Hfree.
  - intros wn p np nj wn' node Hsplit.
    change (Toy.net_split wn p np nj = Returned wn') in Hsplit.
    change (In node (map fst (Toy.net_junctions wn') ++ Toy.net_reservoirs wn')
            <-> In node (map fst (Toy.net_junctions wn) ++ Toy.net_reservoirs wn)
                \/ node = nj).
    destruct (net_split_returned wn wn' p np nj Hsplit) as (_ & _ & Hr).
    pose proof (net_split_names wn wn' p np nj node Hsplit) as Hnames.
    rewrite !in_app_iff, Hr. tauto.
  - intros wn p np nj wn' node Hsplit.
    exact (net_split_names wn wn' p np nj node Hsplit).
  - intros wn p np nj wn' node Hsplit Hne.
    change (Toy.net_split wn p np nj = Returned wn') in Hsplit.
    change (Toy.metric_base wn' node = Toy.metric_base wn node).
    destruct (net_split_returned wn wn' p np nj Hsplit) as (_ & Hj & _).
    unfold Toy.metric_base. rewrite Hj.
    rewrite dict_get_set_other by (intros Heq; apply Hne; symmetry; exact Heq).
    reflexivity.
  - intros wn p np nj wn' Hsplit.
    change (Toy.net_split wn p np nj = Returned wn') in Hsplit.
    change (mean (Toy.metric_base wn' nj) = 0).
    destruct (net_split_returned wn wn' p np nj Hsplit) as (_ & Hj & _).
    unfold Toy.metric_base. rewrite Hj, dict_get_set_same.
    apply mean_singleton.
  - reflexivity.
  - reflexivity.
  - reflexivity.
Qed.

Lemma toy_frame_with (solve : Toy.net -> outcome (dict (list R))) :
  WntrFrame (Toy.wntr_with solve Toy.metric_base).
Proof.
  exact (toy_frame Toy.net_file solve).
Qed.

(** The reducer on the one-pipe network after its pipe was split,
    whatever the leak and the series of the solver. *)
Lemma leaky_serviceability (solve : Toy.net -> outcome (dict (list R)))
  (wn : Toy.net) (s1 s2 : list R) :
  Toy.net_junctions wn = [("J1"%string, 1); ("Leak_P1"%string, 0)] ->
  Toy.net_reservoirs wn = ["R1"%string] ->
  @calculate_serviceability _ (dict (list R))
    (Toy.wntr_with solve Toy.metric_base) wn
    [("J1"%string, s1); ("Leak_P1"%string, s2)]
  = [("J1"%string, mean s1)].
Proof.
  intros Hj Hr. unfold calculate_serviceability.
  set (W := Toy.wntr_with solve Toy.metric_base).
  change (@node_name_list _ _ W wn)
    with (map fst (Toy.net_junctions wn) ++ Toy.net_reservoirs wn).
  rewrite Hj, Hr. cbn [map fst app fold_left].
  assert (Hjunctions : @junction_name_list _ _ W wn
                       = ["J1"%string; "Leak_P1"%string])
    by (change (@junction_name_list _ _ W wn)
          with (map fst (Toy.net_junctions wn));
        rewrite Hj; reflexivity).
  assert (Hleak : @expected_demand _ _ W wn "Leak_P1" = [0])
    by (change (@expected_demand _ _ W wn "Leak_P1")
          with (Toy.metric_base wn "Leak_P1");
        unfold Toy.metric_base; rewrite Hj; reflexivity).
  assert (Hj1 : @expected_demand _ _ W wn "J1" = [1])
    by (change (@expected_demand _ _ W wn "J1")
          with (Toy.metric_base wn "J1");
        unfold Toy.metric_base; rewrite Hj; reflexivity).
  rewrite (serviceability_node_not_junction _ _ _ "R1")
    by (rewrite Hjunctions; reflexivity).
  rewrite (serviceability_node_zero_demand _ _ _ "Leak_P1")
    by (rewrite Hleak; apply mean_singleton).
  rewrite serviceability_node_emitted.
  - rewrite Hj1, mean_singleton.
    change (@node_demand _ _ W _ "J1") with s1.
    cbn [dict_set]. f_equal. f_equal. field.
  - rewrite Hjunctions. reflexivity.
  - rewrite Hj1, mean_singleton. lra.
Qed.

(** A pipe row on any network whose only pipe is [P1]. *)
Section AnyFile.

Variable file : Toy.net.
Variable len : R.
Hypothesis file_pipes : Toy.net_pipes file = [("P1"%string, (len, 0.5))].
Hypothesis len_pos : 0 < len.

Variable solve : Toy.net -> outcome (dict (list R)).
Variable metric : Toy.net -> string -> list R.

Let W : Wntr Toy.net (dict (list R)) := Toy.wntr_on file solve metric.
Let fresh : Toy.net := Toy.net_set_options file Toy.cfg0.

Lemma length_on : @link_length _ _ W fresh "P1" = len.
Proof.
  change (@link_length _ _ W fresh "P1") with (fst (Toy.net_pipe fresh "P1")).
  unfold Toy.net_pipe, fresh. cbn [Toy.net_pipes Toy.net_set_options].
  rewrite file_pipes. reflexivity.
Qed.

Lemma names_pipe_on (k : Z) (pgv : R) :
  name_in (site_id (Toy.row_of k "P1" pgv)) (@pipe_name_list _ _ W fresh)
  = true.
Proof.
  change (@pipe_name_list _ _ W fresh) with (map fst (Toy.net_pipes file)).
  rewrite file_pipes. reflexivity.
Qed.

Lemma rate_on (k : Z) (pgv : R) :
  repair_rate (Toy.row_of k "P1" pgv)
  * @link_length_m _ _ W fresh (site_id (Toy.row_of k "P1" pgv))
  = 0.000241 * pgv / 100 * (len * 0.3048).
Proof.
  unfold repair_rate, link_length_m.
  change (site_id (Toy.row_of k "P1" pgv)) with "P1"%string.
  rewrite length_on. reflexivity.
Qed.

Lemma quiet_plan_on (k : Z) (g : Toy.tape) :
  @apply_damage_states _ Toy.tape_random _ _ W fresh
    [Toy.row_of k "P1" 0] g
  = (Returned [], tl (tl g)).
Proof.
  unfold apply_damage_states. cbn [damage_rows]. unfold bind.
  rewrite damage_row_pipe;
    [| apply names_pipe_on | rewrite rate_on; lra].
  rewrite pf_zero by (rewrite rate_on; lra).
  cbn [uniform_draw poisson_draw Toy.tape_random fst snd].
  pose proof (@uniform_draw_range _ Toy.tape_random (tl g)) as [Hu _].
  cbn [uniform_draw Toy.tape_random fst] in Hu.
  destruct (Rlt_dec _ 0) as [Hlt | _]; [lra | reflexivity].
Qed.

Lemma failed_plan_on (k : Z) (pgv : R) (n : nat) (rest : Toy.tape) :
  0 < pgv ->
  @apply_damage_states _ Toy.tape_random _ _ W fresh
    [Toy.row_of k "P1" pgv] (n :: 0%nat :: rest)
  = (Returned [("P1"%string, @orifice_area _ _ W fresh "P1" n)], rest).
Proof.
  intros Hpgv.
  rewrite single_failed_row.
  - reflexivity.
  - apply names_pipe_on.
  - rewrite rate_on. nra.
  - change (fst (uniform_draw _)) with 0.
    apply pf_pos. rewrite rate_on. nra.
Qed.

End AnyFile.

End ToyFacts.

Module ZeroRateExample.
Import Toy.ZeroRate.

#[local] Existing Instance Toy.tape_random.
#[local] Existing Instance Toy.wntr_half.

Lemma rows_zero_rate (r : row) :
  In r rows ->
  repair_rate r * link_length_m (fresh_network "net.inp" Toy.cfg0) (site_id r)
  = 0.
Proof.
  intros [Hr | [Hr | []]]; subst r;
    unfold repair_rate, link_length_m; cbn; lra.
Qed.

Lemma zero_rate_scenario_witness :
  exists g',
    apply_damage_states (fresh_network "net.inp" Toy.cfg0) rows g0
    = (Returned [], g').
Proof.
  destruct (zero_rate_scenario "net.inp" Toy.cfg0 rows g0)
    as [_ [g' [Hplan _]]].
  - intros r Hin _. apply rows_zero_rate. exact Hin.
  - exists g'. exact Hplan.
Defined.

(** C6, as stated, fails: with [PGV = 0] on every row the plan is empty
    and the network undamaged, yet junction [J1] is served at 1/2, not
    at 1, because the solver delivers half of its demand. *)
Lemma zero_pgv_serviceability_below_one :
  fst (run_hydraulic_simulation simulator Toy.cfg0 g0)
  = Returned [ {| rec_site_id := "J1";
                  rec_scenario_index := 0;
                  rec_serviceability := 1 / 2 |} ]
  /\ 1 / 2 <> 1.
Proof.
  split; [| lra].
  destruct (damage_rows_zero_rate (fresh_network "net.inp" Toy.cfg0) rows
              (fun r Hin _ => rows_zero_rate r Hin) [] g0) as [g' Hplan].
  pose proof (run_scenario_returned (Results := dict (list R))
                "net.inp" Toy.cfg0 rows g0 g' []
                (fresh_network "net.inp" Toy.cfg0)
                [("J1"%string, [1 / 2 * 1])] Hplan eq_refl eq_refl) as Hrun.
  change (calculate_serviceability _ _) with
    (@calculate_serviceability _ (dict (list R))
       (Toy.wntr_with (Toy.solve_fraction (1 / 2)) Toy.metric_base)
       (Toy.net_set_options Toy.net_file Toy.cfg0)
       [("J1"%string, [1 / 2 * 1])])
    in Hrun.
  rewrite ToyFacts.baseline_serviceability in Hrun.
  erewrite batch_of_loop.
  2:{ change (groupby (scenarios_df simulator)) with [(0%Z, rows)].
      erewrite scenario_loop_returned by exact Hrun.
      reflexivity. }
  reflexivity.
Qed.

End ZeroRateExample.

Module ZeroAreaExample.
Import Toy.ZeroArea.

#[local] Existing Instance Toy.tape_random.
#[local] Existing Instance Toy.wntr_plain.

Lemma r0_rate :
  repair_rate r0 * link_length_m (fresh_network "net.inp" Toy.cfg0) "P1"
  = 0.000241 * 304.8.
Proof.
  unfold repair_rate, link_length_m. cbn. lra.
Qed.

Lemma zero_area_leak_inserted_witness :
  apply_damage_states (fresh_network "net.inp" Toy.cfg0) [r0] g0
  = (Returned [("P1"%string, 0)], []).
Proof.
  edestruct (zero_area_leak_inserted "net.inp" Toy.cfg0 r0 g0)
    as [_ [Hplan _]].
  - reflexivity.
  - change (site_id r0) with "P1"%string. rewrite r0_rate. lra.
  - apply le_n.
  - change (fst (uniform_draw _)) with 0.
    apply pf_pos. change (site_id r0) with "P1"%string. rewrite r0_rate. lra.
  - reflexivity.
  - exact Hplan.
Defined.

End ZeroAreaExample.

Module UnknownSiteExample.
Import Toy.UnknownSite.

#[local] Existing Instance Toy.tape_random.
#[local] Existing Instance Toy.wntr_plain.

(** C8, as stated, fails: the row names [NOPE], which is no element of
    the network, and the batch still returns its table. *)
Lemma unknown_site_batch_returns :
  name_in "NOPE" (pipe_name_list (fresh_network "net.inp" Toy.cfg0)
                  ++ node_name_list (fresh_network "net.inp" Toy.cfg0))
  = false
  /\ run_hydraulic_simulation simulator Toy.cfg0 g0
     = (Returned [ {| rec_site_id := "J1";
                      rec_scenario_index := 0;
                      rec_serviceability := 1 |} ], g0).
Proof.
  split; [reflexivity |].
  assert (Hplan : apply_damage_states (fresh_network "net.inp" Toy.cfg0)
                    rows g0 = (Returned [], g0))
    by (apply damage_rows_no_pipe; reflexivity).
  pose proof (run_scenario_returned (Results := dict (list R))
                "net.inp" Toy.cfg0 rows g0 g0 []
                (fresh_network "net.inp" Toy.cfg0)
                [("J1"%string, [1 * 1])] Hplan eq_refl eq_refl) as Hrun.
  change (calculate_serviceability _ _) with
    (@calculate_serviceability _ (dict (list R))
       (Toy.wntr_with (Toy.solve_fraction 1) Toy.metric_base)
       (Toy.net_set_options Toy.net_file Toy.cfg0) [("J1"%string, [1 * 1])])
    in Hrun.
  rewrite ToyFacts.baseline_serviceability in Hrun.
  erewrite batch_of_loop.
  2:{ change (groupby (scenarios_df simulator)) with [(0%Z, rows)].
      erewrite scenario_loop_returned by exact Hrun.
      reflexivity. }
  reflexivity.
Qed.

End UnknownSiteExample.

Module OrderExample.
Import Toy.Order.

#[local] Existing Instance Toy.tape_random.
#[local] Existing Instance Toy.wntr_plain.

Lemma four_damages_area :
  orifice_area (fresh_network "net.inp" Toy.cfg0) "P1" 4
  = 0.09 * (PI * (0.5 / 2) ^ 2).
Proof.
  unfold orifice_area, area.
  assert (Hl : leaks 4 = 3%Z) by (rewrite leaks_quotient; reflexivity).
  assert (Hb : breaks 4 = 0%Z) by (rewrite breaks_quotient; reflexivity).
  rewrite Hl, Hb.
  change (link_diameter _ _) with 0.5.
  pose proof PI_RGT_0 as Hpi.
  unfold py_min.
  destruct (Rlt_dec _ _) as [Hlt | _]; [exfalso; nra | lra].
Qed.

Lemma four_damages_plan (k : Z) (rest : Toy.tape) :
  apply_damage_states (fresh_network "net.inp" Toy.cfg0)
    [Toy.row_of k "P1" 100] (4%nat :: 0%nat :: rest)
  = (Returned [("P1"%string,
                orifice_area (fresh_network "net.inp" Toy.cfg0) "P1" 4)],
     rest).
Proof.
  rewrite single_failed_row.
  - reflexivity.
  - reflexivity.
  - rewrite (ToyFacts.rate_of_P1 (Toy.solve_fraction 1) Toy.metric_base).
    lra.
  - change (fst (uniform_draw _)) with 0.
    apply pf_pos.
    rewrite (ToyFacts.rate_of_P1 (Toy.solve_fraction 1) Toy.metric_base).
    lra.
Qed.

(** C5, as stated, fails: from one generator state, scenario A draws
    one damage and an orifice area of 0 when it runs first, and four
    damages and 9 % of the bore when it runs after scenario B. *)
Lemma draws_depend_on_order :
  let wn := fresh_network "net.inp" Toy.cfg0 in
  fst (apply_damage_states wn rowsA g0) = Returned [("P1"%string, 0)]
  /\ fst (apply_damage_states wn rowsA
            (snd (apply_damage_states wn rowsB g0)))
     = Returned [("P1"%string, 0.09 * (PI * (0.5 / 2) ^ 2))]
  /\ 0.09 * (PI * (0.5 / 2) ^ 2) <> 0.
Proof.
  cbv zeta. split; [| split].
  - unfold rowsA, g0.
    rewrite (ToyFacts.failed_plan (Toy.solve_fraction 1) Toy.metric_base)
      by lra.
    reflexivity.
  - unfold rowsA, rowsB, g0.
    rewrite (ToyFacts.failed_plan (Toy.solve_fraction 1) Toy.metric_base
               1 200) by lra.
    cbn [snd]. rewrite four_damages_plan, four_damages_area. reflexivity.
  - pose proof PI_RGT_0. nra.
Qed.

Lemma scenario_A_run :
  run_scenario "net.inp" Toy.cfg0 rowsA g0
  = (Returned [("J1"%string, 1)], [4%nat; 0%nat]).
Proof.
  pose proof (run_scenario_returned (Results := dict (list R))
                "net.inp" Toy.cfg0 rowsA g0 [4%nat; 0%nat] [("P1"%string, 0)]
                Toy.net_leaky
                [("J1"%string, [1 * 1]); ("Leak_P1"%string, [1 * 0])]
                (ToyFacts.failed_plan _ _ 0 100 _ ltac:(lra))
                (ToyFacts.failed_mutation _ _) eq_refl) as Hrun.
  rewrite (ToyFacts.leaky_serviceability (Toy.solve_fraction 1) Toy.net_leaky)
    in Hrun by reflexivity.
  rewrite mean_singleton, Rmult_1_l in Hrun. exact Hrun.
Qed.

Lemma scenario_B_run :
  run_scenario "net.inp" Toy.cfg0 rowsB [4%nat; 0%nat]
  = (Returned [("J1"%string, 1)], []).
Proof.
  assert (Hplan : apply_damage_states (fresh_network "net.inp" Toy.cfg0)
                    rowsB [4%nat; 0%nat]
                  = (Returned [("P1"%string, 0.09 * (PI * (0.5 / 2) ^ 2))], [])).
  { rewrite <- four_damages_area.
    exact (ToyFacts.failed_plan_on Toy.net_file 1000 eq_refl ltac:(lra)
             (Toy.solve_fraction 1) Toy.metric_base 1 200 4 [] ltac:(lra)). }
  pose proof (run_scenario_returned (Results := dict (list R))
                "net.inp" Toy.cfg0 rowsB [4%nat; 0%nat] [] _
                net_leaky4
                [("J1"%string, [1 * 1]); ("Leak_P1"%string, [1 * 0])]
                Hplan eq_refl eq_refl) as Hrun.
  rewrite (ToyFacts.leaky_serviceability (Toy.solve_fraction 1) net_leaky4)
    in Hrun by reflexivity.
  rewrite mean_singleton, Rmult_1_l in Hrun. exact Hrun.
Qed.

Lemma both_scenarios_run :
  scenario_loop "net.inp" Toy.cfg0 [] (groupby (scenarios_df simulator)) g0
  = (Returned [("J1"%string, [1; 1])], []).
Proof.
  change (groupby (scenarios_df simulator))
    with [(0%Z, rowsA); (1%Z, rowsB)].
  erewrite scenario_loop_returned by exact scenario_A_run.
  erewrite scenario_loop_returned by exact scenario_B_run.
  reflexivity.
Qed.

Lemma scenarios_share_the_generator_witness :
  Sorted.StronglySorted Z.lt [0%Z; 1%Z]
  /\ (exists acc serviceability,
         scenario_loop "net.inp" Toy.cfg0 [] [(0%Z, rowsA)] g0
         = (Returned acc, [4%nat; 0%nat])
         /\ run_scenario "net.inp" Toy.cfg0 rowsB [4%nat; 0%nat]
            = (Returned serviceability, []))
  /\ draws_of_groups (fresh_network "net.inp" Toy.cfg0)
       [(0%Z, rowsA); (1%Z, rowsB)] g0
     = [].
Proof.
  destruct (scenarios_share_the_generator simulator Toy.cfg0 g0 []
              [("J1"%string, [1; 1])] both_scenarios_run)
    as (Hsorted & Hstep & Hend).
  split; [exact Hsorted | split].
  - exact (Hstep [(0%Z, rowsA)] 1%Z rowsB [] eq_refl).
  - symmetry. exact Hend.
Defined.

End OrderExample.

Module LengthExample.
Import Toy.Length.

#[local] Existing Instance Toy.tape_random.
#[local] Existing Instance wntr_main.

Lemma main_length :
  link_length (fresh_network "main.inp" Toy.cfg0) "P1" = 3048.
Proof.
  exact (ToyFacts.length_on net_main 3048 eq_refl
           (Toy.solve_fraction 1) Toy.metric_base).
Qed.

Lemma code_rate :
  repair_rate r0 * link_length_m (fresh_network "main.inp" Toy.cfg0) "P1"
  = 0.000241 * 150 / 100 * (3048 * 0.3048).
Proof.
  unfold link_length_m. rewrite main_length. reflexivity.
Qed.

Lemma spec_rate :
  0.000241 * PGV r0 / 100
  * length_m_of_spec (fresh_network "main.inp" Toy.cfg0) "P1"
  = 0.000241 * 150 / 100 * 3048.
Proof.
  unfold length_m_of_spec, length_ft. rewrite main_length.
  change (PGV r0) with 150. field; lra.
Qed.

Lemma code_probability :
  pf (fresh_network "main.inp" Toy.cfg0) r0 < 1 / 2.
Proof.
  rewrite pf_formula. change (site_id r0) with "P1"%string.
  rewrite code_rate.
  pose proof (exp_ineq1_le (- (0.000241 * 150 / 100 * (3048 * 0.3048)))).
  lra.
Qed.

Lemma spec_probability :
  1 / 2 < pf_of_spec (fresh_network "main.inp" Toy.cfg0) r0.
Proof.
  unfold pf_of_spec. change (site_id r0) with "P1"%string.
  rewrite spec_rate, exp_Ropp.
  pose proof (exp_ineq1_le (0.000241 * 150 / 100 * 3048)) as Hexp.
  assert (Hinv : / exp (0.000241 * 150 / 100 * 3048) < / 2)
    by (apply Rinv_lt_contravar; lra).
  lra.
Qed.

(** C1: the code at the failing input. The main is 10000 ft long, which
    wntr holds as 3048 m: that is the [length_m] of the specification.
    Line 120 multiplies it by 0.3048 once more, under a comment that
    says it converts to metres, so that the Poisson rate and the
    failure probability are those of a main of 929.0304 m. With three
    damages drawn and a uniform sample of 1/2 the source leaves the
    pipe out of the plan, whereas the formulas of the specification
    fail it, with the orifice area of its example for three damages. *)
Theorem length_converted_twice :
  let wn := fresh_network "main.inp" Toy.cfg0 in
  link_length wn "P1" = 3048
  /\ length_ft wn "P1" = 10000
  /\ length_m_of_spec wn "P1" = 3048
  /\ link_length_m wn "P1" = 3048 * 0.3048
  /\ pf wn r0 < 1 / 2 < pf_of_spec wn r0
  /\ apply_damage_states wn [r0] g0 = (Returned [], [])
  /\ apply_damage_states_of_spec wn [r0] g0
     = (Returned [("P1"%string, orifice_area wn "P1" 3)], [])
  /\ Rabs (orifice_area wn "P1" 3 - 0.01178) < 0.000005.
Proof.
  cbv zeta.
  split; [exact main_length |].
  split; [unfold length_ft; rewrite main_length; lra |].
  split; [unfold length_m_of_spec, length_ft; rewrite main_length; lra |].
  split; [unfold link_length_m; rewrite main_length; reflexivity |].
  split; [split; [exact code_probability | exact spec_probability] |].
  split; [| split].
  - unfold apply_damage_states. cbn [damage_rows]. unfold bind.
    rewrite damage_row_pipe;
      [| reflexivity
       | change (site_id r0) with "P1"%string; rewrite code_rate; lra].
    cbn [uniform_draw poisson_draw Toy.tape_random fst snd].
    change (Toy.tape_uniform _) with (1 / 2).
    pose proof code_probability as Hpf.
    destruct (Rlt_dec (1 / 2) _) as [Hlt | _]; [lra | reflexivity].
  - unfold apply_damage_states_of_spec. cbn [damage_rows_of_spec].
    unfold bind at 1, damage_row_of_spec.
    change (name_in (site_id r0) (pipe_name_list _)) with true. cbv iota.
    unfold bind, np_random_poisson, np_random_uniform.
    change (site_id r0) with "P1"%string.
    change (repair_rate r0) with (0.000241 * PGV r0 / 100).
    rewrite spec_rate.
    destruct (Rlt_dec _ 0) as [Hneg | _]; [lra |].
    cbn [uniform_draw poisson_draw Toy.tape_random fst snd].
    change (Toy.tape_uniform _) with (1 / 2).
    pose proof spec_probability as Hpf.
    destruct (Rlt_dec (1 / 2) _) as [_ | Hno]; [reflexivity | lra].
  - apply orifice_area_three. reflexivity.
Qed.

End LengthExample.

Module RatioExample.
Import Toy.Ratio.

#[local] Existing Instance Toy.tape_random.
#[local] Existing Instance wntr_double.

(** The pipe fails; the solver delivers twice the demand on the leaking
    snapshot. *)
Lemma damaged_run :
  run_scenario "net.inp" Toy.cfg0 rows g0
  = (Returned [("J1"%string, 2)], []).
Proof.
  pose proof (run_scenario_returned (Results := dict (list R))
                "net.inp" Toy.cfg0 rows g0 [] [("P1"%string, 0)]
                Toy.net_leaky
                [("J1"%string, [2 * 1]); ("Leak_P1"%string, [2 * 0])]
                (ToyFacts.failed_plan _ _ 0 100 [] ltac:(lra))
                (ToyFacts.failed_mutation _ _) eq_refl) as Hrun.
  rewrite (ToyFacts.leaky_serviceability (Toy.solve_fraction 2) Toy.net_leaky)
    in Hrun by reflexivity.
  rewrite mean_singleton, Rmult_1_r in Hrun. exact Hrun.
Qed.

Lemma serviceability_is_unclamped_ratio_witness :
  exists plan wn' results,
    apply_damage_states (fresh_network "net.inp" Toy.cfg0) rows g0
    = (Returned plan, [])
    /\ apply_orifice_areas Toy.cfg0 (fresh_network "net.inp" Toy.cfg0) plan
       = Returned wn'
    /\ run_sim wn' = Returned results
    /\ name_in "J1" (junction_name_list (fresh_network "net.inp" Toy.cfg0))
       = true
    /\ mean (expected_demand (fresh_network "net.inp" Toy.cfg0) "J1") <> 0
    /\ 2 = mean (node_demand results "J1")
           / mean (expected_demand (fresh_network "net.inp" Toy.cfg0) "J1").
Proof.
  apply (serviceability_is_unclamped_ratio
           (frame := ToyFacts.toy_frame_with (Toy.solve_fraction 2))
           "net.inp" Toy.cfg0 rows g0 [] [("J1"%string, 2)] "J1" 2).
  - exact damaged_run.
  - left. reflexivity.
Defined.

(** The batch on that scenario: the value 2 reaches the table as it
    is. *)
Lemma value_above_one_kept :
  run_hydraulic_simulation simulator Toy.cfg0 g0
  = (Returned [ {| rec_site_id := "J1";
                   rec_scenario_index := 0;
                   rec_serviceability := 2 |} ], []).
Proof.
  erewrite batch_of_loop.
  2:{ change (groupby (scenarios_df simulator)) with [(0%Z, rows)].
      erewrite scenario_loop_returned by exact damaged_run.
      reflexivity. }
  reflexivity.
Qed.

End RatioExample.

Module DivergenceExample.
Import Toy.Divergence.

#[local] Existing Instance Toy.tape_random.
#[local] Existing Instance wntr_stalled.

Lemma quiet_scenario_run :
  run_scenario "net.inp" Toy.cfg0 rows0 g0
  = (Returned [("J1"%string, 1)], [1%nat; 0%nat]).
Proof.
  pose proof (run_scenario_returned (Results := dict (list R))
                "net.inp" Toy.cfg0 rows0 g0 [1%nat; 0%nat] []
                (fresh_network "net.inp" Toy.cfg0)
                [("J1"%string, [1 * 1])]
                (ToyFacts.quiet_plan Toy.solve_stalled Toy.metric_base 0 g0)
                eq_refl eq_refl) as Hrun.
  change (calculate_serviceability _ _) with
    (@calculate_serviceability _ (dict (list R))
       (Toy.wntr_with (Toy.solve_fraction 1) Toy.metric_base)
       (Toy.net_set_options Toy.net_file Toy.cfg0) [("J1"%string, [1 * 1])])
    in Hrun.
  rewrite ToyFacts.baseline_serviceability in Hrun.
  exact Hrun.
Qed.

Lemma first_scenario_reduced :
  scenario_loop "net.inp" Toy.cfg0 [] [(0%Z, rows0)] g0
  = (Returned [("J1"%string, [1])], [1%nat; 0%nat]).
Proof.
  erewrite scenario_loop_returned by exact quiet_scenario_run.
  reflexivity.
Qed.

Lemma stalled_serviceability :
  calculate_serviceability (Results := dict (list R))
    Toy.net_leaky stalled_results
  = [("J1"%string, mean [])].
Proof.
  apply (ToyFacts.leaky_serviceability Toy.solve_stalled Toy.net_leaky);
    reflexivity.
Qed.

Lemma non_convergence_goes_unnoticed_witness :
  run_scenario "net.inp" Toy.cfg0 rows1 [1%nat; 0%nat]
  = (Returned (calculate_serviceability Toy.net_leaky stalled_results), [])
  /\ (forall node,
         eligible Toy.net_leaky node ->
         dict_get (accumulate [("J1"%string, [1])]
                     (calculate_serviceability Toy.net_leaky stalled_results))
                  node
         = Some (appended (dict_get [("J1"%string, [1])] node)
                   (mean (node_demand stalled_results node)
                    / mean (expected_demand Toy.net_leaky node))))
  /\ run_hydraulic_simulation simulator Toy.cfg0 g0
     = (d <- scenario_loop "net.inp" Toy.cfg0
               (accumulate [("J1"%string, [1])]
                  (calculate_serviceability Toy.net_leaky stalled_results))
               [] ;;
        lift (reshape d)) [].
Proof.
  apply (non_convergence_goes_unnoticed simulator Toy.cfg0
           [(0%Z, rows0)] [] 1 rows1 [("J1"%string, [1])]
           g0 [1%nat; 0%nat] [] [("P1"%string, 0)] Toy.net_leaky
           stalled_results).
  - reflexivity.
  - exact first_scenario_reduced.
  - apply ToyFacts.failed_plan. lra.
  - apply ToyFacts.failed_mutation.
  - reflexivity.
  - reflexivity.
Defined.

(** C4, as stated, fails: the solver does not converge on scenario 1 and
    hands back results without a time step; the batch call returns a
    table all the same, and the table has a row for scenario 1, whose
    value is the mean of no step at all. Nothing names the scenario as
    failed. *)
Lemma stalled_scenario_stays_in_table :
  run_sim Toy.net_leaky = Returned stalled_results
  /\ converged stalled_results = false
  /\ exists v,
       run_hydraulic_simulation simulator Toy.cfg0 g0
       = (Returned [ {| rec_site_id := "J1";
                        rec_scenario_index := 0;
                        rec_serviceability := 1 |};
                     {| rec_site_id := "J1";
                        rec_scenario_index := 1;
                        rec_serviceability := v |} ], []).
Proof.
  split; [reflexivity | split; [reflexivity |]].
  exists (mean []).
  pose proof (run_scenario_returned (Results := dict (list R))
                "net.inp" Toy.cfg0 rows1 [1%nat; 0%nat] []
                [("P1"%string, 0)] Toy.net_leaky stalled_results
                (ToyFacts.failed_plan _ _ 1 100 [] ltac:(lra))
                (ToyFacts.failed_mutation _ _) eq_refl) as Hrun.
  rewrite stalled_serviceability in Hrun.
  erewrite batch_of_loop.
  2:{ change (groupby (scenarios_df simulator))
        with [(0%Z, rows0); (1%Z, rows1)].
      erewrite scenario_loop_returned by exact quiet_scenario_run.
      erewrite scenario_loop_returned by exact Hrun.
      reflexivity. }
  reflexivity.
Qed.

End DivergenceExample.

Module EligibilityExample.
Import Toy.Eligibility.

#[local] Existing Instance Toy.tape_random.
#[local] Existing Instance wntr_two.

Lemma undamaged_two :
  calculate_serviceability (Results := dict (list R))
    (fresh_network "two.inp" Toy.cfg0)
    [("J1"%string, [1 * 1]); ("J2"%string, [1 * 3]); ("J0"%string, [1 * 0])]
  = [("J1"%string, 1); ("J2"%string, 1)].
Proof.
  unfold calculate_serviceability.
  change (node_name_list _)
    with ["J1"%string; "J2"%string; "J0"%string; "R1"%string].
  cbn [fold_left].
  rewrite (serviceability_node_not_junction _ _ _ "R1") by reflexivity.
  rewrite (serviceability_node_zero_demand _ _ _ "J0")
    by (change (expected_demand _ _) with [0]; apply mean_singleton).
  rewrite (serviceability_node_emitted _ _ _ "J2");
    [| reflexivity
     | change (expected_demand _ _) with [3]; rewrite mean_singleton; lra].
  rewrite (serviceability_node_emitted _ _ _ "J1");
    [| reflexivity
     | change (expected_demand _ _) with [1]; rewrite mean_singleton; lra].
  change (expected_demand _ "J1") with [1].
  change (expected_demand _ "J2") with [3].
  change (node_demand _ "J1") with [1 * 1].
  change (node_demand _ "J2") with [1 * 3].
  rewrite !mean_singleton. cbn [dict_set String.eqb Ascii.eqb Bool.eqb].
  replace (1 * 1 / 1) with 1 by field.
  replace (1 * 3 / 3) with 1 by field.
  reflexivity.
Qed.

Lemma leaky_two :
  calculate_serviceability (Results := dict (list R)) net_two_leaky
    [("J1"%string, [1 * 1]); ("J2"%string, [1 * 3]); ("J0"%string, [1 * 0]);
     ("Leak_P1"%string, [1 * 0])]
  = [("J1"%string, 1); ("J2"%string, 1)].
Proof.
  unfold calculate_serviceability.
  change (node_name_list _)
    with ["J1"%string; "J2"%string; "J0"%string; "Leak_P1"%string;
          "R1"%string].
  cbn [fold_left].
  rewrite (serviceability_node_not_junction _ _ _ "R1") by reflexivity.
  rewrite (serviceability_node_zero_demand _ _ _ "Leak_P1")
    by (change (expected_demand _ _) with [0]; apply mean_singleton).
  rewrite (serviceability_node_zero_demand _ _ _ "J0")
    by (change (expected_demand _ _) with [0]; apply mean_singleton).
  rewrite (serviceability_node_emitted _ _ _ "J2");
    [| reflexivity
     | change (expected_demand _ _) with [3]; rewrite mean_singleton; lra].
  rewrite (serviceability_node_emitted _ _ _ "J1");
    [| reflexivity
     | change (expected_demand _ _) with [1]; rewrite mean_singleton; lra].
  change (expected_demand _ "J1") with [1].
  change (expected_demand _ "J2") with [3].
  change (node_demand _ "J1") with [1 * 1].
  change (node_demand _ "J2") with [1 * 3].
  rewrite !mean_singleton. cbn [dict_set String.eqb Ascii.eqb Bool.eqb].
  replace (1 * 1 / 1) with 1 by field.
  replace (1 * 3 / 3) with 1 by field.
  reflexivity.
Qed.

Lemma quiet_scenario :
  run_scenario "two.inp" Toy.cfg0 rows0 g0
  = (Returned [("J1"%string, 1); ("J2"%string, 1)], [1%nat; 0%nat]).
Proof.
  pose proof (run_scenario_returned (Results := dict (list R))
                (wntr := wntr_two)
                "two.inp" Toy.cfg0 rows0 g0 [1%nat; 0%nat] []
                (fresh_network "two.inp" Toy.cfg0)
                [("J1"%string, [1 * 1]); ("J2"%string, [1 * 3]);
                 ("J0"%string, [1 * 0])]
                (ToyFacts.quiet_plan_on net_two 1000 eq_refl
                   (Toy.solve_fraction 1) Toy.metric_base 0 g0)
                eq_refl eq_refl) as Hrun.
  rewrite undamaged_two in Hrun. exact Hrun.
Qed.

Lemma damaged_scenario :
  run_scenario "two.inp" Toy.cfg0 rows1 [1%nat; 0%nat]
  = (Returned [("J1"%string, 1); ("J2"%string, 1)], []).
Proof.
  assert (Hplan : apply_damage_states (fresh_network "two.inp" Toy.cfg0)
                    rows1 [1%nat; 0%nat]
                  = (Returned [("P1"%string, 0)], [])).
  { rewrite <- (orifice_area_small_draw
                  (fresh_network "two.inp" Toy.cfg0) "P1" 1 (le_n 1)).
    exact (ToyFacts.failed_plan_on net_two 1000 eq_refl ltac:(lra)
             (Toy.solve_fraction 1) Toy.metric_base 1 100 1 [] ltac:(lra)). }
  pose proof (run_scenario_returned (Results := dict (list R))
                "two.inp" Toy.cfg0 rows1 [1%nat; 0%nat] []
                [("P1"%string, 0)] net_two_leaky
                [("J1"%string, [1 * 1]); ("J2"%string, [1 * 3]);
                 ("J0"%string, [1 * 0]); ("Leak_P1"%string, [1 * 0])]
                Hplan eq_refl eq_refl) as Hrun.
  rewrite leaky_two in Hrun. exact Hrun.
Qed.

Lemma both_scenarios_reduced :
  scenario_loop "two.inp" Toy.cfg0 [] (groupby (scenarios_df simulator)) g0
  = (Returned [("J1"%string, [1; 1]); ("J2"%string, [1; 1])], []).
Proof.
  change (groupby (scenarios_df simulator))
    with [(0%Z, rows0); (1%Z, rows1)].
  erewrite scenario_loop_returned by exact quiet_scenario.
  erewrite scenario_loop_returned by exact damaged_scenario.
  reflexivity.
Qed.

Lemma servs_unequal_keys :
  Forall (fun s : dict R => NoDup (map fst s)) servs_unequal.
Proof.
  unfold servs_unequal. repeat constructor; cbn [map fst In].
  - intros [Heq | []]. discriminate.
  - intros [].
  - intros [].
Qed.


End EligibilityExample.

Module LabelsExample.
Import Toy.Labels.

#[local] Existing Instance Toy.tape_random.
#[local] Existing Instance Toy.wntr_plain.

Lemma only_scenario_reduced :
  run_scenario "net.inp" Toy.cfg0 rows g0 = (Returned [("J1"%string, 1)], g0).
Proof.
  assert (Hplan : apply_damage_states (fresh_network "net.inp" Toy.cfg0)
                    rows g0 = (Returned [], g0))
    by (apply damage_rows_no_pipe; reflexivity).
  pose proof (run_scenario_returned (Results := dict (list R))
                "net.inp" Toy.cfg0 rows g0 g0 []
                (fresh_network "net.inp" Toy.cfg0)
                [("J1"%string, [1 * 1])] Hplan eq_refl eq_refl) as Hrun.
  change (calculate_serviceability _ _) with
    (@calculate_serviceability _ (dict (list R))
       (Toy.wntr_with (Toy.solve_fraction 1) Toy.metric_base)
       (Toy.net_set_options Toy.net_file Toy.cfg0) [("J1"%string, [1 * 1])])
    in Hrun.
  rewrite ToyFacts.baseline_serviceability in Hrun.
  exact Hrun.
Qed.

(** C2: the code at the failing input. The only scenario of the input
    has key 1; the record returned for it carries [scenario_index] 0,
    the position of its column. *)
Theorem scenario_key_replaced_by_position :
  map fst (groupby (scenarios_df simulator)) = [1%Z]
  /\ run_hydraulic_simulation simulator Toy.cfg0 g0
     = (Returned [ {| rec_site_id := "J1";
                      rec_scenario_index := 0;
                      rec_serviceability := 1 |} ], g0).
Proof.
  split; [reflexivity |].
  erewrite batch_of_loop.
  2:{ change (groupby (scenarios_df simulator)) with [(1%Z, rows)].
      erewrite scenario_loop_returned by exact only_scenario_reduced.
      reflexivity. }
  reflexivity.
Qed.

End LabelsExample.

(** * Concrete runs of the further properties *)

Module PlannerExample.
Import Inputs.

#[local] Existing Instance Toy.tape_random.
#[local] Existing Instance Toy.wntr_plain.

Lemma shaken_plan :
  apply_damage_states (fresh_network "net.inp" Toy.cfg0) [shaken] g0
  = (Returned [("P1"%string, 0)], []).
Proof.
  apply (ToyFacts.failed_plan (Toy.solve_fraction 1) Toy.metric_base).
  lra.
Qed.

Lemma plan_names_distinct_pipes_witness :
  NoDup (map fst [("P1"%string, 0)])
  /\ forall p, In p (map fst [("P1"%string, 0)]) ->
               In p (pipe_name_list (fresh_network "net.inp" Toy.cfg0))
               /\ exists r, In r [shaken] /\ site_id r = p.
Proof.
  exact (plan_names_distinct_pipes (fresh_network "net.inp" Toy.cfg0)
           [shaken] g0 [] [("P1"%string, 0)] shaken_plan).
Defined.

Lemma draws_consumed_per_pipe_row_witness :
  [] = draws_of_rows (fresh_network "net.inp" Toy.cfg0) [shaken] g0.
Proof.
  exact (draws_consumed_per_pipe_row (fresh_network "net.inp" Toy.cfg0)
           [shaken] g0 [] [("P1"%string, 0)] shaken_plan).
Defined.

Lemma negative_rate_raises_witness :
  apply_damage_states (fresh_network "net.inp" Toy.cfg0)
    ([] ++ negative :: [shaken]) g0
  = (Raised ValueError, g0).
Proof.
  apply (negative_rate_raises (fresh_network "net.inp" Toy.cfg0)
           [] [shaken] negative g0 g0 []).
  - reflexivity.
  - reflexivity.
  - unfold negative.
    rewrite (ToyFacts.rate_of_P1 (Toy.solve_fraction 1) Toy.metric_base).
    lra.
Defined.

Lemma pf_is_a_probability_witness :
  0 <= pf (fresh_network "net.inp" Toy.cfg0) shaken <= 1.
Proof.
  apply pf_is_a_probability. unfold shaken.
  rewrite (ToyFacts.rate_of_P1 (Toy.solve_fraction 1) Toy.metric_base).
  lra.
Defined.

Lemma full_bore_from_twenty_damages_witness :
  orifice_area Toy.net_file "P1" 20 = PI * (link_diameter Toy.net_file "P1" / 2) ^ 2
  <-> (20 <= 20)%nat.
Proof.
  apply full_bore_from_twenty_damages.
  change (link_diameter Toy.net_file "P1") with 0.5. lra.
Defined.

Lemma orifice_area_monotone_witness :
  orifice_area Toy.net_file "P1" 7 <= orifice_area Toy.net_file "P1" 30.
Proof.
  apply orifice_area_monotone. lia.
Defined.

End PlannerExample.

Module SplitExample.
Import Inputs.

#[local] Existing Instance Toy.tape_random.
#[local] Existing Instance wntr_clash.

Lemma clash_rate :
  repair_rate shaken
  * link_length_m (fresh_network "net.inp" Toy.cfg0) (site_id shaken)
  = 0.000241 * 304.8.
Proof.
  unfold repair_rate, link_length_m. cbn. lra.
Qed.

Lemma clash_plan :
  apply_damage_states (fresh_network "net.inp" Toy.cfg0) [shaken] g0
  = (Returned ([] ++ ("P1"%string, 0) :: []), []).
Proof.
  rewrite single_failed_row.
  - cbn [uniform_draw poisson_draw Toy.tape_random fst snd tl hd g0].
    rewrite orifice_area_small_draw by apply le_n. reflexivity.
  - reflexivity.
  - rewrite clash_rate. lra.
  - change (fst (uniform_draw _)) with 0.
    apply pf_pos. rewrite clash_rate. lra.
Qed.

Lemma split_failure_aborts_scenario_witness :
  run_scenario "net.inp" Toy.cfg0 [shaken] g0
  = (Raised (ExternalError "name already in use"), []).
Proof.
  apply (split_failure_aborts_scenario "net.inp" Toy.cfg0 [shaken] g0 []
           [] [] "P1" 0 (fresh_network "net.inp" Toy.cfg0)).
  - exact clash_plan.
  - reflexivity.
  - reflexivity.
Defined.

End SplitExample.

Module TableExample.
Import Toy.Labels.

#[local] Existing Instance Toy.tape_random.
#[local] Existing Instance Toy.wntr_plain.

Lemma labels_run :
  run_hydraulic_simulation simulator Toy.cfg0 g0
  = (Returned [Inputs.the_record], g0).
Proof.
  erewrite batch_of_loop.
  2:{ change (groupby (scenarios_df simulator)) with [(1%Z, rows)].
      erewrite scenario_loop_returned
        by exact LabelsExample.only_scenario_reduced.
      reflexivity. }
  reflexivity.
Qed.

Lemma scenario_index_below_scenario_count_witness :
  (0 <= rec_scenario_index Inputs.the_record
   < Z.of_nat (List.length (groupby (scenarios_df simulator))))%Z.
Proof.
  apply (scenario_index_below_scenario_count simulator Toy.cfg0 g0 g0
           [Inputs.the_record] Inputs.the_record labels_run).
  left. reflexivity.
Defined.

Lemma table_records_are_list_positions_witness :
  In Inputs.the_record [Inputs.the_record] <->
  exists values j,
    In (rec_site_id Inputs.the_record, values) [("J1"%string, [1])]
    /\ rec_scenario_index Inputs.the_record = Z.of_nat j
    /\ nth_error values j = Some (rec_serviceability Inputs.the_record).
Proof.
  apply (table_records_are_list_positions [("J1"%string, [1])]
           [Inputs.the_record] Inputs.the_record).
  reflexivity.
Defined.

Lemma table_records_come_from_scenarios_witness :
  exists k rows g1 g2 plan wn' results,
    In (k, rows) (groupby (scenarios_df simulator))
    /\ apply_damage_states (fresh_network "net.inp" Toy.cfg0) rows g1
       = (Returned plan, g2)
    /\ apply_orifice_areas Toy.cfg0 (fresh_network "net.inp" Toy.cfg0) plan
       = Returned wn'
    /\ run_sim wn' = Returned results
    /\ name_in "J1" (junction_name_list wn') = true
    /\ mean (expected_demand wn' "J1") <> 0
    /\ 1 = mean (node_demand results "J1") / mean (expected_demand wn' "J1").
Proof.
  apply (table_records_come_from_scenarios simulator Toy.cfg0 g0 g0
           [Inputs.the_record] Inputs.the_record labels_run).
  left. reflexivity.
Defined.

End TableExample.

Module PopulationExample.
Import Inputs.

Lemma population_table_distinct : NoDup (map fst population_table).
Proof.
  cbn [map fst population_table]. constructor.
  - intros [H | []]. discriminate.
  - constructor; [intros [] | constructor].
Qed.

Lemma population_rows_kept_witness :
  map (fun o => (pop_scenario_index o, pop_site_id o))
      (calculate_population_impacted [served_above_one] population_table)
  = [(0%Z, "J1"%string)].
Proof.
  exact (population_rows_kept [served_above_one] population_table
           population_table_distinct).
Defined.

Lemma population_impacted_sign_witness :
  (1 - rec_serviceability served_above_one) * 100 < 0.
Proof.
  destruct (population_impacted_sign [served_above_one] population_table
              served_above_one 100) as (_ & _ & Hneg).
  - left. reflexivity.
  - left. reflexivity.
  - lra.
  - apply Hneg. cbn [rec_serviceability served_above_one]. lra.
Defined.

End PopulationExample.
